(** * drake: the logistic witness-function fixture and the manipulation station

    A shallow embedding of

    - [drake/systems/analysis/test/logistic_system.h]: [LogisticWitness] and
      [LogisticSystem], the leaf system used to exercise witness functions;
    - [examples/manipulation_station/manipulation_station.cc]: the
      [ManipulationStation] diagram (gains, controller-model registration,
      [Finalize], gripper position accessors, static camera poses).

    C++ objects that are mutated through pointers live in an explicit store;
    methods that can throw are computations in a state-and-exception monad
    that keeps the state reached when the exception left the method.
    [double] is IEEE-754 binary64, as specified by [SpecFloat]. *)

From Stdlib Require Import ZArith Lia Bool.
From Stdlib Require Import Floats.SpecFloat.
From stdpp Require Import gmap strings list fin_maps sorting pretty.

Set Default Proof Using "Type".

(** ** Exceptions and the state-and-exception monad *)

(** The exceptions the modelled code can raise.  [DRAKE_THROW_UNLESS(c)]
    throws [std::runtime_error] carrying the text of the failed condition;
    the remaining constructors stand for failures raised by collaborators. *)
Inductive exn : Type :=
| ThrowUnless (condition : string)
| OutOfRange (index size : nat)
| NoSuchObject (name : string)
| External (what : string).

(** The result of running a method from a state: a value and the final
    state, or an exception and the state at the point it was thrown. *)
Inductive outcome (S A : Type) : Type :=
| Returns (a : A) (s : S)
| Throws (e : exn) (s : S).
Arguments Returns {S A} a s.
Arguments Throws {S A} e s.

Definition M (S A : Type) : Type := S -> outcome S A.

Definition state_of {S A} (o : outcome S A) : S :=
  match o with Returns _ s => s | Throws _ s => s end.

Definition value_of {S A} (o : outcome S A) : option A :=
  match o with Returns a _ => Some a | Throws _ _ => None end.

Definition raised {S A} (o : outcome S A) : option exn :=
  match o with Returns _ _ => None | Throws e _ => Some e end.

Definition throws {S A} (o : outcome S A) : bool :=
  match o with Returns _ _ => false | Throws _ _ => true end.

Definition ret {S A} (a : A) : M S A := fun s => Returns a s.

Definition bind {S A B} (c : M S A) (k : A -> M S B) : M S B :=
  fun s => match c s with
           | Returns a s' => k a s'
           | Throws e s' => Throws e s'
           end.

Definition throw {S A} (e : exn) : M S A := fun s => Throws e s.
Definition get {S} : M S S := fun s => Returns s s.
Definition put {S} (s : S) : M S unit := fun _ => Returns tt s.
Definition modify {S} (f : S -> S) : M S unit := fun s => Returns tt (f s).

Declare Scope cxx_scope.
Delimit Scope cxx_scope with cxx.
Notation "x <- c ;; k" := (bind c (fun x => k))
  (at level 100, c at next level, right associativity) : cxx_scope.
Notation "c ;;; k" := (bind c (fun _ => k))
  (at level 100, right associativity) : cxx_scope.
Local Open Scope cxx_scope.

(** [DRAKE_THROW_UNLESS(condition)]. *)
Definition DRAKE_THROW_UNLESS {S} (text : string) (condition : bool) : M S unit :=
  if condition then ret tt else throw (ThrowUnless text).

(** Runs [f] on each element of [l] in order, stopping at the first throw. *)
Fixpoint for_each {S B} (f : B -> M S unit) (l : list B) : M S unit :=
  match l with
  | [] => ret tt
  | b :: l' => f b ;;; for_each f l'
  end.

(** What an outcome satisfies: [Q] of the value and state it returns, [E]
    of the exception and state it throws. *)
Definition post {S A} (Q : A -> S -> Prop) (E : exn -> S -> Prop)
    (o : outcome S A) : Prop :=
  match o with
  | Returns a s => Q a s
  | Throws e s => E e s
  end.

(** ** IEEE-754 binary64 *)

Module Double.

Definition prec : Z := 53.
Definition emax : Z := 1024.

Definition double : Type := spec_float.

Definition zero : double := S754_zero false.
Definition nan : double := S754_nan.

(** The conversion of an integer literal to [double]. *)
Definition of_Z (n : Z) : double := binary_normalize prec emax n 0 false.

Definition neg : double -> double := SFopp.
Definition add : double -> double -> double := SFadd prec emax.
Definition sub : double -> double -> double := SFsub prec emax.
Definition mul : double -> double -> double := SFmul prec emax.
Definition div : double -> double -> double := SFdiv prec emax.
Definition sqrt : double -> double := SFsqrt prec emax.

(** The comparisons; each is false as soon as an operand is NaN. *)
Definition ltb (x y : double) : bool := SFltb x y.
Definition leb (x y : double) : bool := SFleb x y.
Definition geb (x y : double) : bool := SFleb y x.

Definition is_nan (x : double) : bool :=
  match x with S754_nan => true | _ => false end.

(** [x < 0]. *)
Definition negative (x : double) : bool := ltb x zero.

(** The values a [double] can hold: canonical mantissa and exponent. *)
Definition valid (x : double) : bool := valid_binary prec emax x.

(** Every double but the odd multiples of the smallest subnormal,
    [2^-1074]: halving any of these loses no bit. *)
Definition halves_exactly (x : double) : bool :=
  match x with
  | S754_finite _ m e => negb ((e =? emin prec emax)%Z && Z.odd (Z.pos m))
  | _ => true
  end.

(** The smallest positive double, [2^-1074]. *)
Definition denorm_min : double := S754_finite false 1 (-1074).

End Double.
Export Double(double).

(** * Part I: the embedding *)

(** ** The systems framework, as far as the fixture uses it *)

(** Modelled from the spec: [WitnessFunction::DirectionType] is declared in
    [witness_function.h], outside these sources; the spec lists the trigger
    types crosses-zero, becomes-positive and becomes-negative. *)
Inductive DirectionType : Type :=
| kCrossesZero
| kBecomesPositive
| kBecomesNegative.

(** Modelled from the spec: [DiscreteEvent::ActionType] is declared outside
    these sources; the spec names the tagged actions publish and
    update-discrete-state. *)
Inductive ActionType : Type :=
| kPublishAction
| kUpdateDiscreteStateAction.

(** The base class [WitnessFunction<T>]: what its constructor is given. *)
Record WitnessFunction : Type := {
  get_dir_type : DirectionType;
  get_action_type : ActionType
}.

(** Addresses of vector objects ([ContinuousState<T>]) and of systems. *)
Definition loc : Type := positive.
Definition addr : Type := positive.

(** [LogisticSystem<T>] is generic in its scalar [T].  The expression of the
    derivative mixes [T] with [double] members and an [int] literal; the
    conversions to [T] and the arithmetic of [T] are the scalar's own. *)
Class Scalar (T : Type) : Type := {
  of_int : Z -> T;
  of_double : double -> T;
  s_sub : T -> T -> T;
  s_mul : T -> T -> T;
  s_div : T -> T -> T;
  s_pow : T -> T -> T
}.

(** A [Context<T>]: its time, and the continuous-state vector it owns. *)
Record Context (T : Type) : Type := {
  get_time : T;
  get_continuous_state : loc
}.
Arguments get_time {T} c.
Arguments get_continuous_state {T} c.

(** Everything a method of the fixture can touch: the vector objects, the
    state [E] captured by publish callbacks, and a ghost trace of the
    arguments of every [std::function] invocation. *)
Record World (T E : Type) : Type := {
  vectors : gmap loc (list T);
  env : E;
  calls : list (Context T)
}.
Arguments vectors {T E} w.
Arguments env {T E} w.
Arguments calls {T E} w.

(** What a holder of [const Context<T>&] can observe. *)
Definition observe {T E} (c : Context T) (w : World T E) : T * option (list T) :=
  (get_time c, vectors w !! get_continuous_state c).

(** [std::function<void(const Context<double>&)>]: it reads the context it
    is handed (time and state vector) and acts on its captured state. *)
Definition Callback (T E : Type) : Type :=
  T -> option (list T) -> E -> outcome E unit.

Section Framework.
Context {T E : Type}.

(** Reading component [i] of the vector at [v].  [VectorBase::operator[]] is
    declared outside these sources; an index past the end is modelled as a
    failure. *)
Definition GetAtIndex (v : loc) (i : nat) : M (World T E) T :=
  fun w =>
    match vectors w !! v with
    | None => Throws (NoSuchObject "vector") w
    | Some xs =>
        match xs !! i with
        | Some x => Returns x w
        | None => Throws (OutOfRange i (length xs)) w
        end
    end.

(** Assigning [x] to component [i] of the vector at [v]. *)
Definition SetAtIndex (v : loc) (i : nat) (x : T) : M (World T E) unit :=
  fun w =>
    match vectors w !! v with
    | None => Throws (NoSuchObject "vector") w
    | Some xs =>
        if decide (i < length xs)
        then Returns tt {| vectors := <[v := <[i := x]> xs]> (vectors w);
                           env := env w; calls := calls w |}
        else Throws (OutOfRange i (length xs)) w
    end.

(** Invoking a non-empty [std::function] on a context. *)
Definition invoke (f : Callback T E) (c : Context T) : M (World T E) unit :=
  fun w =>
    match f (get_time c) (vectors w !! get_continuous_state c) (env w) with
    | Returns _ e' =>
        Returns tt {| vectors := vectors w; env := e'; calls := calls w ++ [c] |}
    | Throws x e' =>
        Throws x {| vectors := vectors w; env := e'; calls := calls w ++ [c] |}
    end.

End Framework.

(** ** [logistic_system.h] *)

(** [LogisticWitness<T>]. *)
Record LogisticWitness : Type := {
  witness_base : WitnessFunction;
  system_ : addr
}.

(** [explicit LogisticWitness(const LogisticSystem<T>* system)]. *)
Definition LogisticWitness_ctor (system : addr) : LogisticWitness :=
  {| witness_base := {| get_dir_type := kCrossesZero;
                        get_action_type := kPublishAction |};
     system_ := system |}.

(** [LogisticSystem<T>].  [continuous_state_size] is the size recorded by
    [LeafSystem::DeclareContinuousState]; [witness_] is the [unique_ptr]
    member, [None] while it is null. *)
Record LogisticSystem (T E : Type) : Type := {
  this : addr;
  continuous_state_size : nat;
  witness_ : option LogisticWitness;
  publish_callback_ : option (Callback T E);
  k_ : double;
  alpha_ : double;
  nu_ : double
}.
Arguments this {T E} l.
Arguments continuous_state_size {T E} l.
Arguments witness_ {T E} l.
Arguments publish_callback_ {T E} l.
Arguments k_ {T E} l.
Arguments alpha_ {T E} l.
Arguments nu_ {T E} l.

Section Logistic.
Context {T E : Type} {scalar : Scalar T}.

(** [LogisticSystem(double k, double alpha, double nu)], constructing the
    object at address [self]. *)
Definition LogisticSystem_ctor (self : addr) (k alpha nu : double)
  : LogisticSystem T E :=
  {| this := self;
     continuous_state_size := 1;
     witness_ := Some (LogisticWitness_ctor self);
     publish_callback_ := None;
     k_ := k; alpha_ := alpha; nu_ := nu |}.

(** [T LogisticWitness::DoEvaluate(const Context<T>& context)]. *)
Definition DoEvaluate (w : LogisticWitness) (context : Context T)
  : M (World T E) T :=
  GetAtIndex (get_continuous_state context) 0.

(** The right-hand side [alpha_ * (1 - pow(x/k_, nu_)) * t]. *)
Definition logistic_rhs (sys : LogisticSystem T E) (x t : T) : T :=
  s_mul (s_mul (of_double (alpha_ sys))
               (s_sub (of_int 1)
                      (s_pow (s_div x (of_double (k_ sys)))
                             (of_double (nu_ sys)))))
        t.

(** [void DoCalcTimeDerivatives(context, continuous_state) const]: [context]
    is a const reference, [continuous_state] a pointer to the vector that
    receives the derivative. *)
Definition DoCalcTimeDerivatives (sys : LogisticSystem T E)
    (context : Context T) (continuous_state : loc) : M (World T E) unit :=
  let t := get_time context in
  x <- GetAtIndex (get_continuous_state context) 0 ;;
  SetAtIndex continuous_state 0 (logistic_rhs sys x t).

(** [void DoCalcOutput(context, output) const]: the body is empty. *)
Definition DoCalcOutput (sys : LogisticSystem T E) (context : Context T)
  : M (World T E) unit :=
  ret tt.

(** [get_witness_functions(const Context<T>& context) const]: the vector
    holding [witness_.get()]. *)
Definition get_witness_functions (sys : LogisticSystem T E)
    (context : Context T) : list (option LogisticWitness) :=
  [witness_ sys].

(** [void DoPublish(const Context<double>& context) const]. *)
Definition DoPublish (sys : LogisticSystem T E) (context : Context T)
  : M (World T E) unit :=
  match publish_callback_ sys with
  | Some callback => invoke callback context
  | None => ret tt
  end.

(** [void set_publish_callback(std::function<...> callback)]; an empty
    [std::function] is [None]. *)
Definition set_publish_callback (callback : option (Callback T E))
    (sys : LogisticSystem T E) : LogisticSystem T E :=
  {| this := this sys;
     continuous_state_size := continuous_state_size sys;
     witness_ := witness_ sys;
     publish_callback_ := callback;
     k_ := k_ sys; alpha_ := alpha_ sys; nu_ := nu_ sys |}.

(** Modelled from the spec: [LeafSystem::AllocateContext] is outside these
    sources; the spec has a Context created by an allocation call, holding a
    continuous-state vector of the size declared at construction.  The new
    vector is placed at the fresh address [l]. *)
Definition AllocateContext (sys : LogisticSystem T E) (l : loc) (t0 x0 : T)
    (w : World T E) : Context T * World T E :=
  ({| get_time := t0; get_continuous_state := l |},
   {| vectors := <[l := replicate (continuous_state_size sys) x0]> (vectors w);
      env := env w; calls := calls w |}).

(** The operations a caller can perform on a constructed system. *)
Inductive Operation : Type :=
| CalcTimeDerivatives (context : Context T) (derivatives : loc)
| Evaluate (context : Context T)
| CalcOutput (context : Context T)
| GetWitnessFunctions (context : Context T)
| Publish (context : Context T)
| SetPublishCallback (callback : option (Callback T E)).

(** One operation, on the system and the world; an exception leaves both as
    they were when it was thrown. *)
Definition perform (op : Operation) (sw : LogisticSystem T E * World T E)
  : LogisticSystem T E * World T E :=
  let (sys, w) := sw in
  match op with
  | CalcTimeDerivatives c d => (sys, state_of (DoCalcTimeDerivatives sys c d w))
  | Evaluate c =>
      match witness_ sys with
      | Some wf => (sys, state_of (DoEvaluate wf c w))
      | None => (sys, w)
      end
  | CalcOutput c => (sys, state_of (DoCalcOutput sys c w))
  | GetWitnessFunctions c => (sys, w)
  | Publish c => (sys, state_of (DoPublish sys c w))
  | SetPublishCallback cb => (set_publish_callback cb sys, w)
  end.

Definition perform_all (ops : list Operation)
    (sw : LogisticSystem T E * World T E) : LogisticSystem T E * World T E :=
  foldl (fun acc op => perform op acc) sw ops.

End Logistic.

(** ** [manipulation_station.cc] *)

(** [const int kNumDofIiwa = 7]. *)
Definition kNumDofIiwa : nat := 7.

(** [Eigen::VectorXd]. *)
Definition VectorXd : Type := list double.

(** [multibody::ModelInstanceIndex], a type-safe index: [None] is the
    invalid index a default-constructed one holds. *)
Definition ModelInstanceIndex : Type := option nat.
Definition is_valid (i : ModelInstanceIndex) : bool :=
  match i with Some _ => true | None => false end.

(** The pose types and their algebra come from [math/rigid_transform.h] and
    Eigen, outside these sources; they are parameters of the embedding. *)
Class Poses : Type := {
  RigidTransform : Type;
  Isometry3 : Type;
  RigidTransform_of_Isometry3 : Isometry3 -> RigidTransform;
  GetAsIsometry3 : RigidTransform -> Isometry3;
  rt_mul : RigidTransform -> RigidTransform -> RigidTransform;
  iso_mul : Isometry3 -> Isometry3 -> Isometry3;
  rt_Identity : RigidTransform
}.

(** The part of [multibody::MultibodyPlant] contexts the station reads and
    writes: prismatic joints found by name within a model instance, and the
    translation each holds in a plant context.  The laws say that a joint's
    translation is a component of the context of its own, and that joints
    found under different names are different joints. *)
Class PlantApi : Type := {
  PlantContext : Type;
  PrismaticJoint : Type;
  GetJointByName : string -> ModelInstanceIndex -> option PrismaticJoint;
  get_translation : PrismaticJoint -> PlantContext -> double;
  set_translation : PrismaticJoint -> PlantContext -> double -> PlantContext;
  get_set_translation : forall j c x,
    get_translation j (set_translation j c x) = x;
  get_set_translation_other : forall j j' c x,
    j <> j' -> get_translation j' (set_translation j c x) = get_translation j' c;
  GetJointByName_inj : forall n n' i j,
    GetJointByName n i = Some j -> GetJointByName n' i = Some j -> n = n'
}.

(** The part of [SchunkWsgPositionController] the station uses. *)
Class WsgControllerApi : Type := {
  WsgControllerContext : Type;
  set_initial_position : WsgControllerContext -> double -> WsgControllerContext
}.

(** What the parser finds in a model file, as far as the station asks for
    it by name; model files and the parser are outside these sources.
    [HasFrameInModel file name]: the model instance parsed from [file] has
    a frame called [name], so that [GetFrameByName(name, instance)] returns.
    [GetFrameBodyByName file name]: in a plant holding the model of [file]
    and nothing else, [GetFrameByName(name)] returns, and this is the name
    of the body the frame is attached to.  [HasRigidBody] and [HasJoint]:
    that plant has a rigid body, a joint, of the name. *)
Class ModelFilesApi : Type := {
  HasFrameInModel : string -> string -> bool;
  GetFrameBodyByName : string -> string -> option string;
  HasRigidBody : string -> string -> bool;
  HasJoint : string -> string -> bool
}.

Section Station.
Context {poses : Poses} {plant_api : PlantApi} {wsg_api : WsgControllerApi}.

(** [multibody::Frame<T>]: its name, the index of the body it is attached
    to, and its fixed pose in that body's frame. *)
Record Frame : Type := {
  frame_name : string;
  frame_body_index : nat;
  GetFixedPoseInBodyFrame : Isometry3
}.

(** What the station asks of [plant_]: whether it is finalized, its world
    frame, and the geometry frame registered for a body, if any. *)
Record MultibodyPlant : Type := {
  is_finalized : bool;
  world_frame : Frame;
  GetBodyFrameIdIfExists : nat -> option nat
}.

(** [struct ModelInformation]; the frame pointers are null by default. *)
Record ModelInformation : Type := {
  model_path : string;
  model_parent_frame : option Frame;
  model_child_frame : option Frame;
  model_X_PC : RigidTransform;
  model_instance : ModelInstanceIndex
}.

(** [struct CameraInformation]; [properties] are opaque to the station. *)
Record CameraInformation : Type := {
  camera_parent_frame : Frame;
  camera_X_PC : RigidTransform;
  camera_properties : nat
}.

(** The calls [Finalize] makes on its [DiagramBuilder], in order; a camera
    is added with the geometry frame it is fixed to and its pose there. *)
Inductive BuilderCall : Type :=
| AddSystem (name : string)
| AddRgbdCamera (name : string) (parent_id : nat) (X_PC : Isometry3)
| Connect (output input : string)
| ExportInput (port name : string)
| ExportOutput (port name : string).

(** The name of the system a call adds, if it adds one. *)
Definition added_system (call : BuilderCall) : option string :=
  match call with
  | AddSystem name => Some name
  | AddRgbdCamera name _ _ => Some name
  | _ => None
  end.

(** The controller's plant, [owned_controller_plant_]. *)
Record ControllerPlant : Type := {
  controller_models : list string;
  controller_bodies : list string;
  controller_finalized : bool
}.

(** [ManipulationStation<T>]: the members the modelled methods use.
    [owned_plant_] and [owned_scene_graph_] tell whether the [unique_ptr]s
    still hold their objects; [diagram_] is what [BuildInto] installed.
    [plant_destroyed_] is ghost: it tells that the object the raw pointer
    [plant_] points to has been destroyed, after which [plant_] dangles,
    what the record shows under [plant_] stands for nothing, and a method
    that dereferences [plant_] has no defined behaviour. *)
Record ManipulationStation : Type := {
  plant_ : MultibodyPlant;
  owned_plant_ : bool;
  owned_scene_graph_ : bool;
  owned_controller_plant_ : ControllerPlant;
  iiwa_kp_ : VectorXd;
  iiwa_ki_ : VectorXd;
  iiwa_kd_ : VectorXd;
  wsg_kp_ : double;
  wsg_kd_ : double;
  iiwa_model_ : ModelInformation;
  wsg_model_ : ModelInformation;
  camera_information_ : gmap string CameraInformation;
  diagram_ : option (list BuilderCall);
  plant_destroyed_ : bool
}.

(** A default-constructed [ModelInformation]. *)
Definition ModelInformation_default : ModelInformation :=
  {| model_path := ""; model_parent_frame := None; model_child_frame := None;
     model_X_PC := rt_Identity; model_instance := None |}.

(** [ManipulationStation(double time_step)].  The new plant (here [plant0],
    not finalized) and the in-class initialisers of the gripper gains come
    from outside these sources. *)
Definition ManipulationStation_ctor (plant0 : MultibodyPlant)
    (wsg_kp0 wsg_kd0 : double) : ManipulationStation :=
  let kp := replicate kNumDofIiwa (Double.of_Z 100) in
  {| plant_ := plant0;
     owned_plant_ := true;
     owned_scene_graph_ := true;
     owned_controller_plant_ :=
       {| controller_models := []; controller_bodies := [];
          controller_finalized := false |};
     iiwa_kp_ := kp;
     iiwa_ki_ := replicate kNumDofIiwa (Double.of_Z 1);
     iiwa_kd_ := map (fun p => Double.mul (Double.of_Z 2) (Double.sqrt p)) kp;
     wsg_kp_ := wsg_kp0;
     wsg_kd_ := wsg_kd0;
     iiwa_model_ := ModelInformation_default;
     wsg_model_ := ModelInformation_default;
     camera_information_ := ∅;
     diagram_ := None;
     plant_destroyed_ := false |}.

(** Functional updates of single members. *)
Definition with_gains (kp kd : double) (st : ManipulationStation) :=
  {| plant_ := plant_ st; owned_plant_ := owned_plant_ st;
     owned_scene_graph_ := owned_scene_graph_ st;
     owned_controller_plant_ := owned_controller_plant_ st;
     iiwa_kp_ := iiwa_kp_ st; iiwa_ki_ := iiwa_ki_ st; iiwa_kd_ := iiwa_kd_ st;
     wsg_kp_ := kp; wsg_kd_ := kd;
     iiwa_model_ := iiwa_model_ st; wsg_model_ := wsg_model_ st;
     camera_information_ := camera_information_ st; diagram_ := diagram_ st;
     plant_destroyed_ := plant_destroyed_ st |}.

Definition with_iiwa_model (m : ModelInformation) (st : ManipulationStation) :=
  {| plant_ := plant_ st; owned_plant_ := owned_plant_ st;
     owned_scene_graph_ := owned_scene_graph_ st;
     owned_controller_plant_ := owned_controller_plant_ st;
     iiwa_kp_ := iiwa_kp_ st; iiwa_ki_ := iiwa_ki_ st; iiwa_kd_ := iiwa_kd_ st;
     wsg_kp_ := wsg_kp_ st; wsg_kd_ := wsg_kd_ st;
     iiwa_model_ := m; wsg_model_ := wsg_model_ st;
     camera_information_ := camera_information_ st; diagram_ := diagram_ st;
     plant_destroyed_ := plant_destroyed_ st |}.

Definition with_wsg_model (m : ModelInformation) (st : ManipulationStation) :=
  {| plant_ := plant_ st; owned_plant_ := owned_plant_ st;
     owned_scene_graph_ := owned_scene_graph_ st;
     owned_controller_plant_ := owned_controller_plant_ st;
     iiwa_kp_ := iiwa_kp_ st; iiwa_ki_ := iiwa_ki_ st; iiwa_kd_ := iiwa_kd_ st;
     wsg_kp_ := wsg_kp_ st; wsg_kd_ := wsg_kd_ st;
     iiwa_model_ := iiwa_model_ st; wsg_model_ := m;
     camera_information_ := camera_information_ st; diagram_ := diagram_ st;
     plant_destroyed_ := plant_destroyed_ st |}.

Definition with_cameras (c : gmap string CameraInformation)
    (st : ManipulationStation) :=
  {| plant_ := plant_ st; owned_plant_ := owned_plant_ st;
     owned_scene_graph_ := owned_scene_graph_ st;
     owned_controller_plant_ := owned_controller_plant_ st;
     iiwa_kp_ := iiwa_kp_ st; iiwa_ki_ := iiwa_ki_ st; iiwa_kd_ := iiwa_kd_ st;
     wsg_kp_ := wsg_kp_ st; wsg_kd_ := wsg_kd_ st;
     iiwa_model_ := iiwa_model_ st; wsg_model_ := wsg_model_ st;
     camera_information_ := c; diagram_ := diagram_ st;
     plant_destroyed_ := plant_destroyed_ st |}.

Definition with_controller_plant (c : ControllerPlant)
    (st : ManipulationStation) :=
  {| plant_ := plant_ st; owned_plant_ := owned_plant_ st;
     owned_scene_graph_ := owned_scene_graph_ st;
     owned_controller_plant_ := c;
     iiwa_kp_ := iiwa_kp_ st; iiwa_ki_ := iiwa_ki_ st; iiwa_kd_ := iiwa_kd_ st;
     wsg_kp_ := wsg_kp_ st; wsg_kd_ := wsg_kd_ st;
     iiwa_model_ := iiwa_model_ st; wsg_model_ := wsg_model_ st;
     camera_information_ := camera_information_ st; diagram_ := diagram_ st;
     plant_destroyed_ := plant_destroyed_ st |}.

Definition with_plant (p : MultibodyPlant) (owned_p owned_sg : bool)
    (st : ManipulationStation) :=
  {| plant_ := p; owned_plant_ := owned_p; owned_scene_graph_ := owned_sg;
     owned_controller_plant_ := owned_controller_plant_ st;
     iiwa_kp_ := iiwa_kp_ st; iiwa_ki_ := iiwa_ki_ st; iiwa_kd_ := iiwa_kd_ st;
     wsg_kp_ := wsg_kp_ st; wsg_kd_ := wsg_kd_ st;
     iiwa_model_ := iiwa_model_ st; wsg_model_ := wsg_model_ st;
     camera_information_ := camera_information_ st; diagram_ := diagram_ st;
     plant_destroyed_ := plant_destroyed_ st |}.

Definition with_diagram (d : list BuilderCall) (st : ManipulationStation) :=
  {| plant_ := plant_ st; owned_plant_ := owned_plant_ st;
     owned_scene_graph_ := owned_scene_graph_ st;
     owned_controller_plant_ := owned_controller_plant_ st;
     iiwa_kp_ := iiwa_kp_ st; iiwa_ki_ := iiwa_ki_ st; iiwa_kd_ := iiwa_kd_ st;
     wsg_kp_ := wsg_kp_ st; wsg_kd_ := wsg_kd_ st;
     iiwa_model_ := iiwa_model_ st; wsg_model_ := wsg_model_ st;
     camera_information_ := camera_information_ st; diagram_ := Some d;
     plant_destroyed_ := plant_destroyed_ st |}.

Definition with_plant_destroyed (st : ManipulationStation) :=
  {| plant_ := plant_ st; owned_plant_ := owned_plant_ st;
     owned_scene_graph_ := owned_scene_graph_ st;
     owned_controller_plant_ := owned_controller_plant_ st;
     iiwa_kp_ := iiwa_kp_ st; iiwa_ki_ := iiwa_ki_ st; iiwa_kd_ := iiwa_kd_ st;
     wsg_kp_ := wsg_kp_ st; wsg_kd_ := wsg_kd_ st;
     iiwa_model_ := iiwa_model_ st; wsg_model_ := wsg_model_ st;
     camera_information_ := camera_information_ st; diagram_ := diagram_ st;
     plant_destroyed_ := true |}.

(** The calls [Finalize] makes into the library whose outcome these sources
    do not decide: the arithmetic on spatial inertias, the welds, the added
    body and the gravity field of the controller plant (frames and bodies
    are given by name), the controller plant's [Finalize], each call on the
    [DiagramBuilder], with the port lookups and constructions in its
    arguments, and [BuildInto]. *)
Inductive LibraryCall : Type :=
| ComposeSpatialInertia
| WeldFrames (parent child : string)
| AddRigidBody (name : string)
| AddGravityField
| ControllerPlantFinalize
| Builder (call : BuilderCall)
| BuildInto.

(** [void SetWsgGains(const double kp, const double kd)]. *)
Definition SetWsgGains (kp kd : double) : M ManipulationStation unit :=
  st <- get ;;
  DRAKE_THROW_UNLESS "!plant_->is_finalized()"
    (negb (is_finalized (plant_ st))) ;;;
  DRAKE_THROW_UNLESS "kp >= 0 && kd >= 0"
    (Double.geb kp Double.zero && Double.geb kd Double.zero) ;;;
  modify (with_gains kp kd).

(** [void SetIiwaGains(const VectorX<double>& new_gains,
    VectorX<double>* gains) const]: the state is the vector [gains] points
    to; the station itself is only read. *)
Definition SetIiwaGains (st : ManipulationStation) (new_gains : VectorXd)
  : M VectorXd unit :=
  DRAKE_THROW_UNLESS "!plant_->is_finalized()"
    (negb (is_finalized (plant_ st))) ;;;
  gains <- get ;;
  DRAKE_THROW_UNLESS "new_gains.size() == gains->size()"
    (length new_gains =? length gains) ;;;
  DRAKE_THROW_UNLESS "(new_gains.array() >= 0).all()"
    (forallb (fun g => Double.geb g Double.zero) new_gains) ;;;
  put new_gains.

(** [RegisterIiwaControllerModel]. *)
Definition RegisterIiwaControllerModel (path : string)
    (iiwa_instance : ModelInstanceIndex) (parent_frame child_frame : Frame)
    (X_PC : RigidTransform) : M ManipulationStation unit :=
  st <- get ;;
  DRAKE_THROW_UNLESS "parent_frame.name() == plant_->world_frame().name()"
    (bool_decide (frame_name parent_frame = frame_name (world_frame (plant_ st)))) ;;;
  modify (with_iiwa_model
            {| model_path := path; model_parent_frame := Some parent_frame;
               model_child_frame := Some child_frame; model_X_PC := X_PC;
               model_instance := iiwa_instance |}).

(** [RegisterWsgControllerModel]. *)
Definition RegisterWsgControllerModel (path : string)
    (wsg_instance : ModelInstanceIndex) (parent_frame child_frame : Frame)
    (X_PC : RigidTransform) : M ManipulationStation unit :=
  modify (with_wsg_model
            {| model_path := path; model_parent_frame := Some parent_frame;
               model_child_frame := Some child_frame; model_X_PC := X_PC;
               model_instance := wsg_instance |}).

(** [RegisterRgbdCamera]: [camera_information_[name] = info]. *)
Definition RegisterRgbdCamera (name : string) (parent_frame : Frame)
    (X_PC : RigidTransform) (properties : nat) : M ManipulationStation unit :=
  let info := {| camera_parent_frame := parent_frame; camera_X_PC := X_PC;
                 camera_properties := properties |} in
  modify (fun st => with_cameras (<[name := info]> (camera_information_ st)) st).

(** [std::map::emplace]: inserts unless the key is already present. *)
Definition emplace {V} (k : string) (v : V) (m : gmap string V) : gmap string V :=
  match m !! k with
  | Some _ => m
  | None => <[k := v]> m
  end.

(** [GetStaticCameraPosesInWorld() const]: one pass over
    [camera_information_], collecting into a map the cameras whose parent
    frame is on the world body. *)
Definition GetStaticCameraPosesInWorld (st : ManipulationStation)
  : gmap string RigidTransform :=
  map_fold
    (fun name info static_camera_poses =>
       let frame_P := camera_parent_frame info in
       let is_anchored :=
         frame_body_index frame_P =? frame_body_index (world_frame (plant_ st)) in
       if is_anchored
       then emplace name
              (rt_mul (RigidTransform_of_Isometry3 (GetFixedPoseInBodyFrame frame_P))
                      (camera_X_PC info))
              static_camera_poses
       else static_camera_poses)
    ∅ (camera_information_ st).


End Station.

(** Whether the library carries out a call or throws, given the station and
    the calls its [DiagramBuilder] has taken so far. *)
Class LibraryApi {poses : Poses} : Type := {
  LibraryAccepts : ManipulationStation -> list BuilderCall -> LibraryCall -> bool
}.

Section StationDiagram.
Context {poses : Poses} {plant_api : PlantApi} {wsg_api : WsgControllerApi}
        {files : ModelFilesApi} {library : LibraryApi}.

(** Whether a model file can be parsed is decided by the file system and
    the parser, outside these sources. *)
Variable parses : string -> bool.

(** A lookup by name in the library throws when nothing has the name. *)
Definition found {S} (present : bool) (name : string) : M S unit :=
  if present then ret tt else throw (NoSuchObject name).

(** The exception of a call the library refuses. *)
Definition refused (call : LibraryCall) : exn :=
  External
    match call with
    | ComposeSpatialInertia => "SpatialInertia"
    | WeldFrames _ _ => "MultibodyPlant::WeldFrames"
    | AddRigidBody _ => "MultibodyPlant::AddRigidBody"
    | AddGravityField => "MultibodyPlant::AddForceElement"
    | ControllerPlantFinalize => "owned_controller_plant_->Finalize()"
    | Builder _ => "DiagramBuilder"
    | BuildInto => "DiagramBuilder::BuildInto"
    end.

(** A call into the library, made while the builder holds the calls of the
    state. *)
Definition library_call (call : LibraryCall)
  : M (ManipulationStation * list BuilderCall) unit :=
  sb <- get ;;
  if LibraryAccepts sb.1 sb.2 call then ret tt else throw (refused call).

(** A call into the library made outside the life of the builder. *)
Definition controller_call (call : LibraryCall) : M ManipulationStation unit :=
  st <- get ;;
  if LibraryAccepts st [] call then ret tt else throw (refused call).

(** [parser.AddModelFromFile(path, name)] on the controller plant: refused
    for a file that does not parse, on a finalized plant and for a model
    name the plant already has. *)
Definition controller_AddModelFromFile (path name : string)
  : M ManipulationStation unit :=
  st <- get ;;
  let controller := owned_controller_plant_ st in
  if parses path && negb (controller_finalized controller)
     && negb (bool_decide (name ∈ controller_models controller))
  then modify (with_controller_plant
                 {| controller_models := controller_models controller ++ [name];
                    controller_bodies := controller_bodies controller;
                    controller_finalized := controller_finalized controller |})
  else throw (External "Parser::AddModelFromFile").

(** [MakeCompositeGripperInertia(wsg_sdf_path, gripper_body_frame_name)]:
    parses the gripper's file into a plant of its own, looks up, by name,
    the frame, its body, the two fingers and the two sliding joints, and
    composes the inertias of the three bodies.  The value of the inertia is
    not represented. *)
Definition MakeCompositeGripperInertia
    (wsg_sdf_path gripper_body_frame_name : string)
  : M ManipulationStation unit :=
  (if parses wsg_sdf_path then ret tt
   else throw (External "Parser::AddModelFromFile")) ;;;
  gripper_body <-
    match GetFrameBodyByName wsg_sdf_path gripper_body_frame_name with
    | Some body => ret body
    | None => throw (NoSuchObject gripper_body_frame_name)
    end ;;
  found (HasRigidBody wsg_sdf_path gripper_body) gripper_body ;;;
  found (HasRigidBody wsg_sdf_path "left_finger") "left_finger" ;;;
  found (HasRigidBody wsg_sdf_path "right_finger") "right_finger" ;;;
  found (HasJoint wsg_sdf_path "left_finger_sliding_joint")
        "left_finger_sliding_joint" ;;;
  found (HasJoint wsg_sdf_path "right_finger_sliding_joint")
        "right_finger_sliding_joint" ;;;
  controller_call ComposeSpatialInertia.

(** [MakeIiwaControllerModel()]: parses the iiwa model into the controller
    plant and welds the registered child frame, found by name in that
    model, to the world; adds the body standing for the gripper, with the
    inertia [MakeCompositeGripperInertia] reads from the gripper's file, and
    welds it to the registered parent frame of the gripper, found by name
    in the iiwa model; adds gravity.  The frame pointers registered with
    the models are dereferenced. *)
Definition MakeIiwaControllerModel : M ManipulationStation unit :=
  st <- get ;;
  let iiwa_path := model_path (iiwa_model_ st) in
  controller_AddModelFromFile iiwa_path "iiwa" ;;;
  iiwa_child <-
    match model_child_frame (iiwa_model_ st) with
    | Some frame => ret frame
    | None => throw (External "null child_frame")
    end ;;
  found (HasFrameInModel iiwa_path (frame_name iiwa_child))
        (frame_name iiwa_child) ;;;
  controller_call (WeldFrames "world" (frame_name iiwa_child)) ;;;
  wsg_child <-
    match model_child_frame (wsg_model_ st) with
    | Some frame => ret frame
    | None => throw (External "null child_frame")
    end ;;
  MakeCompositeGripperInertia (model_path (wsg_model_ st))
                              (frame_name wsg_child) ;;;
  controller_call (AddRigidBody "wsg_equivalent") ;;;
  modify (fun st =>
            with_controller_plant
              {| controller_models := controller_models (owned_controller_plant_ st);
                 controller_bodies :=
                   controller_bodies (owned_controller_plant_ st)
                   ++ ["wsg_equivalent"];
                 controller_finalized :=
                   controller_finalized (owned_controller_plant_ st) |} st) ;;;
  wsg_parent <-
    match model_parent_frame (wsg_model_ st) with
    | Some frame => ret frame
    | None => throw (External "null parent_frame")
    end ;;
  found (HasFrameInModel iiwa_path (frame_name wsg_parent))
        (frame_name wsg_parent) ;;;
  controller_call (WeldFrames (frame_name wsg_parent) "wsg_equivalent") ;;;
  controller_call AddGravityField.

(** [plant_->Finalize()]: [MultibodyPlant::Finalize] is outside these
    sources; it marks the plant finalized and refuses a second call. *)
Definition plant_Finalize : M ManipulationStation unit :=
  st <- get ;;
  (if is_finalized (plant_ st) then throw (External "MultibodyPlant::Finalize")
   else ret tt) ;;;
  modify (fun st =>
            with_plant {| is_finalized := true;
                          world_frame := world_frame (plant_ st);
                          GetBodyFrameIdIfExists := GetBodyFrameIdIfExists (plant_ st) |}
                       (owned_plant_ st) (owned_scene_graph_ st) st).

(** The builder calls from the first [Connect] to the exports of the iiwa
    state. *)
Definition builder_plant_calls : list BuilderCall :=
  [ Connect "plant.geometry_poses" "scene_graph.source_pose";
    Connect "scene_graph.query" "plant.geometry_query";
    AddSystem "PassThrough";
    ExportInput "PassThrough.input" "iiwa_position";
    ExportOutput "PassThrough.output" "iiwa_position_commanded";
    AddSystem "Demultiplexer";
    Connect "plant.continuous_state[iiwa]" "Demultiplexer.input";
    ExportOutput "Demultiplexer.output0" "iiwa_position_measured";
    ExportOutput "Demultiplexer.output1" "iiwa_velocity_estimated";
    ExportOutput "plant.continuous_state[iiwa]" "iiwa_state_estimated" ].

(** The builder calls for the two controllers, up to the scene graph for
    rendering. *)
Definition builder_controller_calls : list BuilderCall :=
  [ AddSystem "iiwa_controller";
    Connect "plant.continuous_state[iiwa]" "iiwa_controller.estimated_state";
    AddSystem "Adder";
    Connect "iiwa_controller.control" "Adder.input0";
    ExportInput "Adder.input1" "iiwa_feedforward_torque";
    Connect "Adder.output" "plant.actuation[iiwa]";
    AddSystem "desired_state_from_position";
    Connect "desired_state_from_position.output" "iiwa_controller.desired_state";
    Connect "PassThrough.output" "desired_state_from_position.input";
    ExportOutput "Adder.output" "iiwa_torque_commanded";
    ExportOutput "Adder.output" "iiwa_torque_measured";
    AddSystem "wsg_controller";
    Connect "wsg_controller.generalized_force" "plant.actuation[wsg]";
    Connect "plant.continuous_state[wsg]" "wsg_controller.state";
    ExportInput "wsg_controller.desired_position" "wsg_position";
    ExportInput "wsg_controller.force_limit" "wsg_force_limit";
    AddSystem "MultibodyStateToWsgState";
    Connect "plant.continuous_state[wsg]" "MultibodyStateToWsgState.input";
    ExportOutput "MultibodyStateToWsgState.output" "wsg_state_measured";
    ExportOutput "wsg_controller.grip_force" "wsg_force_measured";
    ExportOutput "plant.generalized_contact_forces[iiwa]" "iiwa_torque_external";
    AddSystem "dev_scene_graph_for_rendering";
    Connect "plant.geometry_poses" "dev_scene_graph_for_rendering.source_pose" ].

(** The builder calls up to the cameras. *)
Definition builder_prefix : list BuilderCall :=
  AddSystem "plant" :: AddSystem "scene_graph"
  :: builder_plant_calls ++ builder_controller_calls.

(** The builder calls for one camera. *)
Definition camera_calls (name : string) (info : CameraInformation)
    (parent_body_id : nat) : list BuilderCall :=
  let camera_name := "camera_" +:+ name in
  let X_PC := iso_mul (GetFixedPoseInBodyFrame (camera_parent_frame info))
                      (GetAsIsometry3 (camera_X_PC info)) in
  [ AddRgbdCamera camera_name parent_body_id X_PC;
    Connect "dev_scene_graph_for_rendering.query" (camera_name +:+ ".query_object");
    ExportOutput (camera_name +:+ ".color_image") (camera_name +:+ "_rgb_image");
    ExportOutput (camera_name +:+ ".depth_image_16u") (camera_name +:+ "_depth_image");
    ExportOutput (camera_name +:+ ".label_image") (camera_name +:+ "_label_image") ].

(** The builder calls after the cameras. *)
Definition builder_suffix : list BuilderCall :=
  [ ExportOutput "scene_graph.pose_bundle" "pose_bundle";
    ExportOutput "plant.contact_results" "contact_results";
    ExportOutput "plant.continuous_state" "plant_continuous_state";
    ExportOutput "plant.geometry_poses" "geometry_poses" ].

(** One call on the builder: the library carries it out, and the builder
    holds it, or throws. *)
Definition builder_call (call : BuilderCall)
  : M (ManipulationStation * list BuilderCall) unit :=
  library_call (Builder call) ;;;
  modify (fun sb => (sb.1, sb.2 ++ [call])).

(** A change of the station made while the builder lives. *)
Definition modify_station (f : ManipulationStation -> ManipulationStation)
  : M (ManipulationStation * list BuilderCall) unit :=
  modify (fun sb => (f sb.1, sb.2)).

(** The body of the loop over [camera_information_] in [Finalize]; the
    state is the station together with the builder's calls so far. *)
Definition add_camera (entry : string * CameraInformation)
  : M (ManipulationStation * list BuilderCall) unit :=
  sb <- get ;;
  let info := entry.2 in
  let parent_body_id :=
    GetBodyFrameIdIfExists (plant_ sb.1)
      (frame_body_index (camera_parent_frame info)) in
  match parent_body_id with
  | None => throw (ThrowUnless "parent_body_id.has_value()")
  | Some id => for_each builder_call (camera_calls entry.1 info id)
  end.

(** The entries of a [std::map<std::string, V>] in iteration order, which
    is the order of the keys. *)
Definition in_key_order {V} (m : gmap string V) : list (string * V) :=
  merge_sort (fun a b => Is_true (String.leb a.1 b.1)) (map_to_list m).

(** The life of the local [DiagramBuilder] of [Finalize]: it starts empty,
    and when the computation throws, unwinding destroys the builder and the
    systems it has been given.  The plant is among them once [owned_plant_]
    has been moved from: [plant_] then dangles (and so does the pointer to
    the scene graph, which no modelled method reads). *)
Definition with_builder {A} (c : M (ManipulationStation * list BuilderCall) A)
  : M ManipulationStation A :=
  fun st =>
    match c (st, []) with
    | Returns a (st', _) => Returns a st'
    | Throws e (st', _) =>
        Throws e (if owned_plant_ st' then st' else with_plant_destroyed st')
    end.

(** [get_camera_names() const]. *)
Definition get_camera_names (st : ManipulationStation) : list string :=
  (in_key_order (camera_information_ st)).*1.

(** [void Finalize()], from the declaration of the builder to
    [BuildInto]: plant and scene graph are moved into the builder, the
    systems are added and wired, the controller plant is finalized on the
    way, one camera is added for each entry of [camera_information_], and
    the diagram is built into the station. *)
Definition build_diagram : M (ManipulationStation * list BuilderCall) unit :=
  modify_station (fun st => with_plant (plant_ st) false (owned_scene_graph_ st) st) ;;;
  builder_call (AddSystem "plant") ;;;
  modify_station (fun st => with_plant (plant_ st) (owned_plant_ st) false st) ;;;
  builder_call (AddSystem "scene_graph") ;;;
  for_each builder_call builder_plant_calls ;;;
  library_call ControllerPlantFinalize ;;;
  modify_station
    (fun st =>
       with_controller_plant
         {| controller_models := controller_models (owned_controller_plant_ st);
            controller_bodies := controller_bodies (owned_controller_plant_ st);
            controller_finalized := true |} st) ;;;
  for_each builder_call builder_controller_calls ;;;
  sb <- get ;;
  for_each add_camera (in_key_order (camera_information_ sb.1)) ;;;
  for_each builder_call builder_suffix ;;;
  library_call BuildInto ;;;
  modify (fun sb => (with_diagram sb.2 sb.1, sb.2)).

(** [void Finalize()]. *)
Definition Finalize : M ManipulationStation unit :=
  st <- get ;;
  DRAKE_THROW_UNLESS "iiwa_model_.model_instance.is_valid()"
    (is_valid (model_instance (iiwa_model_ st))) ;;;
  DRAKE_THROW_UNLESS "wsg_model_.model_instance.is_valid()"
    (is_valid (model_instance (wsg_model_ st))) ;;;
  MakeIiwaControllerModel ;;;
  plant_Finalize ;;;
  with_builder build_diagram.

(** The names of the subsystems of the built diagram. *)
Definition subsystem_names (st : ManipulationStation) : list string :=
  match diagram_ st with
  | Some calls => omap added_system calls
  | None => []
  end.

(** [GetSubsystemByName(name)] and the lookup made by
    [GetMutableSubsystemContext]: both fail for a system that is not part of
    the diagram. *)
Definition GetSubsystemByName {S} (st : ManipulationStation) (name : string)
  : M S unit :=
  if bool_decide (name ∈ subsystem_names st) then ret tt
  else throw (NoSuchObject name).

(** [plant_->GetJointByName<PrismaticJoint>(name, instance)]. *)
Definition FindJoint {S} (name : string) (instance : ModelInstanceIndex)
  : M S PrismaticJoint :=
  match GetJointByName name instance with
  | Some j => ret j
  | None => throw (NoSuchObject name)
  end.

(** A context of the built station: the sub-contexts of the plant and of
    the gripper controller.  The sub-contexts of a diagram are disjoint. *)
Record StationContext : Type := {
  plant_context : PlantContext;
  wsg_controller_context : WsgControllerContext
}.

(** [T GetWsgPosition(const Context<T>& station_context) const]. *)
Definition GetWsgPosition (st : ManipulationStation)
  : M StationContext double :=
  GetSubsystemByName st "plant" ;;;
  right <- FindJoint "right_finger_sliding_joint" (model_instance (wsg_model_ st)) ;;
  left <- FindJoint "left_finger_sliding_joint" (model_instance (wsg_model_ st)) ;;
  c <- get ;;
  ret (Double.sub (get_translation right (plant_context c))
                  (get_translation left (plant_context c))).

(** [void SetWsgPosition(const T& q, Context<T>* station_context) const]. *)
Definition SetWsgPosition (st : ManipulationStation) (q : double)
  : M StationContext unit :=
  GetSubsystemByName st "plant" ;;;
  right <- FindJoint "right_finger_sliding_joint" (model_instance (wsg_model_ st)) ;;
  modify (fun c =>
            {| plant_context :=
                 set_translation right (plant_context c)
                                 (Double.div q (Double.of_Z 2));
               wsg_controller_context := wsg_controller_context c |}) ;;;
  left <- FindJoint "left_finger_sliding_joint" (model_instance (wsg_model_ st)) ;;
  modify (fun c =>
            {| plant_context :=
                 set_translation left (plant_context c)
                                 (Double.div (Double.neg q) (Double.of_Z 2));
               wsg_controller_context := wsg_controller_context c |}) ;;;
  GetSubsystemByName st "wsg_controller" ;;;
  modify (fun c =>
            {| plant_context := plant_context c;
               wsg_controller_context :=
                 set_initial_position (wsg_controller_context c) q |}).

End StationDiagram.

(** ** Reachable systems, and instances used to run the embedding *)

(** The systems a program can hold: built by the constructor, then changed
    only through [set_publish_callback], the one non-const method. *)
Inductive constructed {T E : Type} : LogisticSystem T E -> Prop :=
| constructed_ctor (self : addr) (k alpha nu : double) :
    constructed {| this := self; continuous_state_size := 1;
                   witness_ := Some (LogisticWitness_ctor self);
                   publish_callback_ := None;
                   k_ := k; alpha_ := alpha; nu_ := nu |}
| constructed_set (callback : option (Callback T E)) (sys : LogisticSystem T E) :
    constructed sys ->
    constructed {| this := this sys;
                   continuous_state_size := continuous_state_size sys;
                   witness_ := witness_ sys;
                   publish_callback_ := callback;
                   k_ := k_ sys; alpha_ := alpha_ sys; nu_ := nu_ sys |}.

(** The integer value of a double, truncated; 0 for what has none. *)
Definition Z_of_double (x : double) : Z :=
  match x with
  | S754_finite s m e =>
      let v := if (0 <=? e)%Z then (Z.pos m * 2 ^ e)%Z
               else (Z.pos m / 2 ^ (- e))%Z in
      if s then (- v)%Z else v
  | _ => 0%Z
  end.

(** An exact integer scalar, on which the generic code can be run. *)
#[export] Instance ZScalar : Scalar Z := {
  of_int := fun n => n;
  of_double := Z_of_double;
  s_sub := Z.sub;
  s_mul := Z.mul;
  s_div := Z.quot;
  s_pow := Z.pow
}.

(** Translations along one axis: the simplest pose algebra. *)
#[export] Instance AxisPoses : Poses := {
  RigidTransform := Z;
  Isometry3 := Z;
  RigidTransform_of_Isometry3 := fun x => x;
  GetAsIsometry3 := fun x => x;
  rt_mul := Z.add;
  iso_mul := Z.add;
  rt_Identity := 0%Z
}.

(** A plant whose only joints are the two finger sliders of each valid
    model instance; a joint is known by its name, and a plant context maps
    joints to their translations. *)
Definition finger_joint (name : string) (instance : ModelInstanceIndex)
  : option string :=
  if is_valid instance
     && (bool_decide (name = "right_finger_sliding_joint")
         || bool_decide (name = "left_finger_sliding_joint"))
  then Some name else None.

Lemma finger_joint_inj n n' i j :
  finger_joint n i = Some j -> finger_joint n' i = Some j -> n = n'.
Proof.
  unfold finger_joint. intros Hn Hn'.
  destruct (_ && _); [|discriminate]. destruct (_ && _); [|discriminate].
  congruence.
Qed.

Lemma finger_get_set (j : string) (c : gmap string double) (x : double) :
  default Double.zero (<[j := x]> c !! j) = x.
Proof. now rewrite lookup_insert_eq. Qed.

Lemma finger_get_set_other (j j' : string) (c : gmap string double) (x : double) :
  j <> j' ->
  default Double.zero (<[j := x]> c !! j') = default Double.zero (c !! j').
Proof. intros Hne. now rewrite lookup_insert_ne. Qed.

#[export] Instance FingerPlant : PlantApi := {
  PlantContext := gmap string double;
  PrismaticJoint := string;
  GetJointByName := finger_joint;
  get_translation := fun j c => default Double.zero (c !! j);
  set_translation := fun j c x => <[j := x]> c;
  get_set_translation := finger_get_set;
  get_set_translation_other := finger_get_set_other;
  GetJointByName_inj := finger_joint_inj
}.

(** A gripper controller whose context is the last position it was given. *)
#[export] Instance LastPositionController : WsgControllerApi := {
  WsgControllerContext := double;
  set_initial_position := fun _ q => q
}.

(** Two model files: an arm with the links [iiwa_link_0] to [iiwa_link_7],
    and a gripper with its body, two fingers and two sliding joints; a
    frame has the name of its body. *)
Definition example_iiwa_links : list string :=
  ["iiwa_link_0"; "iiwa_link_1"; "iiwa_link_2"; "iiwa_link_3";
   "iiwa_link_4"; "iiwa_link_5"; "iiwa_link_6"; "iiwa_link_7"].

Definition example_wsg_bodies : list string :=
  ["body"; "left_finger"; "right_finger"].

Definition example_bodies (file : string) : list string :=
  if bool_decide (file = "iiwa7.sdf") then example_iiwa_links
  else if bool_decide (file = "schunk_wsg_50.sdf") then example_wsg_bodies
  else [].

#[export] Instance ExampleModelFiles : ModelFilesApi := {
  HasFrameInModel := fun file name => bool_decide (name ∈ example_bodies file);
  GetFrameBodyByName := fun file name =>
    if bool_decide (name ∈ "WorldBody" :: example_bodies file)
    then Some name else None;
  HasRigidBody := fun file name =>
    bool_decide (name ∈ "WorldBody" :: example_bodies file);
  HasJoint := fun file name =>
    bool_decide (file = "schunk_wsg_50.sdf")
    && bool_decide (name ∈ ["left_finger_sliding_joint";
                            "right_finger_sliding_joint"])
}.

(** A library that carries out every call. *)
#[export] Instance ObligingLibrary : LibraryApi := {
  LibraryAccepts := fun _ _ _ => true
}.

(** A library that carries out every call but the export of an output port
    under the name ["pose_bundle"]. *)
Definition StrictLibrary : LibraryApi := {|
  LibraryAccepts := fun _ _ call =>
    match call with
    | Builder (ExportOutput _ name) => negb (bool_decide (name = "pose_bundle"))
    | _ => true
    end
|}.

(** A station: constructed, the arm registered with its base welded to the
    world, the gripper registered on the last link of the arm, one camera
    on the world and one on the gripper, built. *)
Definition example_world_frame : Frame :=
  {| frame_name := "WorldBody"; frame_body_index := 0;
     GetFixedPoseInBodyFrame := 0%Z |}.

Definition example_base_frame : Frame :=
  {| frame_name := "iiwa_link_0"; frame_body_index := 1;
     GetFixedPoseInBodyFrame := 0%Z |}.

Definition example_flange_frame : Frame :=
  {| frame_name := "iiwa_link_7"; frame_body_index := 8;
     GetFixedPoseInBodyFrame := 0%Z |}.

Definition example_gripper_frame : Frame :=
  {| frame_name := "body"; frame_body_index := 9;
     GetFixedPoseInBodyFrame := 3%Z |}.

Definition example_plant : MultibodyPlant :=
  {| is_finalized := false; world_frame := example_world_frame;
     GetBodyFrameIdIfExists := fun i => Some i |}.

Definition fresh_station : ManipulationStation :=
  ManipulationStation_ctor example_plant (Double.of_Z 200) (Double.of_Z 5).

Definition registered_station : ManipulationStation :=
  state_of
    ((RegisterIiwaControllerModel "iiwa7.sdf" (Some 2) example_world_frame
        example_base_frame 0%Z ;;;
      RegisterWsgControllerModel "schunk_wsg_50.sdf" (Some 3)
        example_flange_frame example_gripper_frame 1%Z ;;;
      RegisterRgbdCamera "0" example_world_frame 10%Z 0 ;;;
      RegisterRgbdCamera "wrist" example_gripper_frame 20%Z 0)
       fresh_station).

Definition built_station : ManipulationStation :=
  state_of (Finalize (fun _ => true) registered_station).

Definition example_station_context : StationContext :=
  {| plant_context := ∅; wsg_controller_context := Double.zero |}.



(** Seven gains, the first of which is NaN. *)
Definition nan_gains : VectorXd := Double.nan :: replicate 6 Double.zero.

(** A logistic system over the integer scalar with [k = 2], [alpha = 3],
    [nu = 2], whose callbacks count the publications they see. *)
Definition example_system : LogisticSystem Z nat :=
  LogisticSystem_ctor 1%positive (Double.of_Z 2) (Double.of_Z 3) (Double.of_Z 2).

Definition counting_callback : Callback Z nat :=
  fun _ _ n => Returns tt (S n).

(** A callback that counts likewise and throws when it is invoked for the
    second time. *)
Definition failing_callback : Callback Z nat :=
  fun _ _ n => if n =? 1 then Throws (External "callback") (S n)
               else Returns tt (S n).

(** A world as [example_world], with a derivative vector of two
    components at a third address. *)
Definition wide_world : World Z nat :=
  {| vectors := <[1%positive := [4%Z]]> (<[3%positive := [0%Z; 7%Z]]> ∅);
     env := 0; calls := [] |}.

(** A context at time 5 with state [4], and a separate derivative vector. *)
Definition example_context : Context Z :=
  {| get_time := 5%Z; get_continuous_state := 1%positive |}.

Definition example_world : World Z nat :=
  {| vectors := <[1%positive := [4%Z]]> (<[2%positive := [0%Z]]> ∅);
     env := 0; calls := [] |}.

(** ** Callers of the fixture *)

Section LogisticCallers.
Context {T E : Type} {scalar : Scalar T}.

(** Publishing on each context of a list in turn, as a simulator does at
    successive events; an exception from the callback ends the run. *)
Definition publish_each (sys : LogisticSystem T E) (contexts : list (Context T))
  : M (World T E) unit :=
  for_each (DoPublish sys) contexts.

End LogisticCallers.

(** ** Callers of the station *)

Section StationCallers.
Context {poses : Poses} {plant_api : PlantApi} {wsg_api : WsgControllerApi}
        {files : ModelFilesApi} {library : LibraryApi}.



(** The builder calls [Finalize] makes for one entry of
    [camera_information_] whose parent body has a geometry frame. *)
Definition camera_calls_of (st : ManipulationStation)
    (entry : string * CameraInformation) : list BuilderCall :=
  match GetBodyFrameIdIfExists (plant_ st)
          (frame_body_index (camera_parent_frame entry.2)) with
  | Some id => camera_calls entry.1 entry.2 id
  | None => []
  end.

(** The station as the builder part of [Finalize] leaves it, the diagram
    apart: plant and scene graph moved out, the controller plant
    finalized. *)
Definition in_builder (st : ManipulationStation) : ManipulationStation :=
  {| plant_ := plant_ st;
     owned_plant_ := false;
     owned_scene_graph_ := false;
     owned_controller_plant_ :=
       {| controller_models := controller_models (owned_controller_plant_ st);
          controller_bodies := controller_bodies (owned_controller_plant_ st);
          controller_finalized := true |};
     iiwa_kp_ := iiwa_kp_ st; iiwa_ki_ := iiwa_ki_ st; iiwa_kd_ := iiwa_kd_ st;
     wsg_kp_ := wsg_kp_ st; wsg_kd_ := wsg_kd_ st;
     iiwa_model_ := iiwa_model_ st; wsg_model_ := wsg_model_ st;
     camera_information_ := camera_information_ st; diagram_ := diagram_ st;
     plant_destroyed_ := plant_destroyed_ st |}.

(** All the calls the builder has taken when [Finalize] returns: the fixed
    calls, the calls for each camera in the order of the camera names, and
    the closing exports. *)
Definition Finalize_calls (st : ManipulationStation) : list BuilderCall :=
  builder_prefix
  ++ flat_map (camera_calls_of st) (in_key_order (camera_information_ st))
  ++ builder_suffix.




(** The exception [e] is that of a call among [allowed] which the library
    refused, in some state of the station and of the builder. *)
Definition refusal (allowed : list LibraryCall) (e : exn) : Prop :=
  exists s b call,
    call ∈ allowed /\ LibraryAccepts s b call = false /\ e = refused call.


End StationCallers.

(** ** [manipulation_station.cc]: the arm and the joint rates *)

(** [DRAKE_DEMAND(condition)] aborts the process when the condition fails;
    the abort is modelled as leaving the method, with the state as it
    was. *)
Definition DRAKE_DEMAND {S} (text : string) (condition : bool) : M S unit :=
  if condition then ret tt else throw (External ("abort: " +:+ text)).

(** Runs [f] on each element of [l] in order and gathers the values. *)
Fixpoint map_each {S A B} (f : A -> M S B) (l : list A) : M S (list B) :=
  match l with
  | [] => ret []
  | a :: l' => b <- f a ;; bs <- map_each f l' ;; ret (b :: bs)
  end.

(** The further parts of plant contexts the station reads and writes: the
    rate of a prismatic joint, and the revolute joints of the arm, found by
    name in the whole plant, with their angles and angular rates.  The laws
    say that each of these, like a translation, is a component of the
    context of its own, and that a revolute joint has one name. *)
Class ArmApi {plant_api : PlantApi} : Type := {
  RevoluteJoint : Type;
  GetRevoluteJointByName : string -> option RevoluteJoint;
  get_angle : RevoluteJoint -> PlantContext -> double;
  set_angle : RevoluteJoint -> PlantContext -> double -> PlantContext;
  get_angular_rate : RevoluteJoint -> PlantContext -> double;
  set_angular_rate : RevoluteJoint -> PlantContext -> double -> PlantContext;
  get_translation_rate : PrismaticJoint -> PlantContext -> double;
  set_translation_rate : PrismaticJoint -> PlantContext -> double -> PlantContext;
  GetRevoluteJointByName_inj : forall n n' j,
    GetRevoluteJointByName n = Some j -> GetRevoluteJointByName n' = Some j ->
    n = n';
  get_set_angle : forall j c x, get_angle j (set_angle j c x) = x;
  get_set_angle_other : forall j j' c x,
    j <> j' -> get_angle j' (set_angle j c x) = get_angle j' c;
  get_set_angular_rate : forall j c x,
    get_angular_rate j (set_angular_rate j c x) = x;
  get_set_angular_rate_other : forall j j' c x,
    j <> j' -> get_angular_rate j' (set_angular_rate j c x) = get_angular_rate j' c;
  get_set_translation_rate : forall j c x,
    get_translation_rate j (set_translation_rate j c x) = x;
  get_set_translation_rate_other : forall j j' c x,
    j <> j' ->
    get_translation_rate j' (set_translation_rate j c x) = get_translation_rate j' c;
  translation_set_angle : forall p j c x,
    get_translation p (set_angle j c x) = get_translation p c;
  angle_set_translation : forall j p c x,
    get_angle j (set_translation p c x) = get_angle j c;
  translation_set_translation_rate : forall p p' c x,
    get_translation p (set_translation_rate p' c x) = get_translation p c;
  translation_rate_set_translation : forall p p' c x,
    get_translation_rate p (set_translation p' c x) = get_translation_rate p c;
  angle_set_angular_rate : forall j j' c x,
    get_angle j (set_angular_rate j' c x) = get_angle j c;
  angular_rate_set_angle : forall j j' c x,
    get_angular_rate j (set_angle j' c x) = get_angular_rate j c
}.

(** The part of [StateInterpolatorWithDiscreteDerivative] the station
    uses. *)
Class InterpolatorApi : Type := {
  InterpolatorContext : Type;
  set_initial_positions : InterpolatorContext -> VectorXd -> InterpolatorContext
}.

Section StationArm.
Context {poses : Poses} {plant_api : PlantApi} {wsg_api : WsgControllerApi}
        {arm_api : ArmApi} {interpolator_api : InterpolatorApi}.

(** A station context together with the sub-context of the subsystem
    [desired_state_from_position]. *)
Record ArmStationContext : Type := {
  station_context : StationContext;
  interpolator_context : InterpolatorContext
}.

(** ["iiwa_joint_" + std::to_string(i + 1)]. *)
Definition iiwa_joint_name (i : nat) : string :=
  "iiwa_joint_" +:+ pretty (i + 1).

(** [plant_->GetJointByName<RevoluteJoint>(name)]. *)
Definition FindRevoluteJoint {S} (name : string) : M S RevoluteJoint :=
  match GetRevoluteJointByName name with
  | Some j => ret j
  | None => throw (NoSuchObject name)
  end.

(** Joint [i] of the arm, if the plant has it. *)
Definition iiwa_joint (i : nat) : option RevoluteJoint :=
  GetRevoluteJointByName (iiwa_joint_name i).

Definition with_plant_context (f : PlantContext -> PlantContext)
    (c : StationContext) : StationContext :=
  {| plant_context := f (plant_context c);
     wsg_controller_context := wsg_controller_context c |}.

(** Coefficient [q(i)] of a vector; the callers check the size first. *)
Definition coeff (q : VectorXd) (i : nat) : double :=
  default Double.zero (q !! i).

(** [VectorX<T> GetIiwaPosition(const Context<T>& station_context) const]. *)
Definition GetIiwaPosition (st : ManipulationStation)
  : M StationContext VectorXd :=
  GetSubsystemByName st "plant" ;;;
  map_each (fun i =>
              joint <- FindRevoluteJoint (iiwa_joint_name i) ;;
              c <- get ;;
              ret (get_angle joint (plant_context c)))
           (seq 0 kNumDofIiwa).

(** [void SetIiwaPosition(q, station_context) const]; a null
    [station_context], which the first [DRAKE_DEMAND] excludes, has no
    counterpart here. *)
Definition SetIiwaPosition (st : ManipulationStation) (q : VectorXd)
  : M ArmStationContext unit :=
  DRAKE_DEMAND "q.size() == kNumDofIiwa" (length q =? kNumDofIiwa) ;;;
  GetSubsystemByName st "plant" ;;;
  for_each (fun i =>
              joint <- FindRevoluteJoint (iiwa_joint_name i) ;;
              modify (fun c =>
                        {| station_context :=
                             with_plant_context
                               (fun pc => set_angle joint pc (coeff q i))
                               (station_context c);
                           interpolator_context := interpolator_context c |}))
           (seq 0 kNumDofIiwa) ;;;
  GetSubsystemByName st "desired_state_from_position" ;;;
  modify (fun c =>
            {| station_context := station_context c;
               interpolator_context :=
                 set_initial_positions (interpolator_context c) q |}).

(** [VectorX<T> GetIiwaVelocity(const Context<T>& station_context) const]. *)
Definition GetIiwaVelocity (st : ManipulationStation)
  : M StationContext VectorXd :=
  GetSubsystemByName st "plant" ;;;
  map_each (fun i =>
              joint <- FindRevoluteJoint (iiwa_joint_name i) ;;
              c <- get ;;
              ret (get_angular_rate joint (plant_context c)))
           (seq 0 kNumDofIiwa).

(** [void SetIiwaVelocity(v, station_context) const]; as for
    [SetIiwaPosition], the null pointer the first [DRAKE_DEMAND] excludes
    has no counterpart here. *)
Definition SetIiwaVelocity (st : ManipulationStation) (v : VectorXd)
  : M StationContext unit :=
  DRAKE_DEMAND "v.size() == kNumDofIiwa" (length v =? kNumDofIiwa) ;;;
  GetSubsystemByName st "plant" ;;;
  for_each (fun i =>
              joint <- FindRevoluteJoint (iiwa_joint_name i) ;;
              modify (with_plant_context
                        (fun pc => set_angular_rate joint pc (coeff v i))))
           (seq 0 kNumDofIiwa).

(** [T GetWsgVelocity(const Context<T>& station_context) const]. *)
Definition GetWsgVelocity (st : ManipulationStation)
  : M StationContext double :=
  GetSubsystemByName st "plant" ;;;
  right <- FindJoint "right_finger_sliding_joint" (model_instance (wsg_model_ st)) ;;
  left <- FindJoint "left_finger_sliding_joint" (model_instance (wsg_model_ st)) ;;
  c <- get ;;
  ret (Double.sub (get_translation_rate right (plant_context c))
                  (get_translation_rate left (plant_context c))).

(** [void SetWsgVelocity(const T& v, Context<T>* station_context) const]. *)
Definition SetWsgVelocity (st : ManipulationStation) (v : double)
  : M StationContext unit :=
  GetSubsystemByName st "plant" ;;;
  right <- FindJoint "right_finger_sliding_joint" (model_instance (wsg_model_ st)) ;;
  modify (with_plant_context
            (fun pc => set_translation_rate right pc
                         (Double.div v (Double.of_Z 2)))) ;;;
  left <- FindJoint "left_finger_sliding_joint" (model_instance (wsg_model_ st)) ;;
  modify (with_plant_context
            (fun pc => set_translation_rate left pc
                         (Double.div (Double.neg v) (Double.of_Z 2)))).

(** Runs a method of the station context on the station part of an
    [ArmStationContext]. *)
Definition on_station {A} (m : M StationContext A) : M ArmStationContext A :=
  fun c =>
    match m (station_context c) with
    | Returns a sc =>
        Returns a {| station_context := sc;
                     interpolator_context := interpolator_context c |}
    | Throws e sc =>
        Throws e {| station_context := sc;
                    interpolator_context := interpolator_context c |}
    end.

End StationArm.

(** ** Joint coordinates written one after the other *)

Section Writes.
Context {C J : Type} (set : J -> C -> double -> C).
Variables (joint : nat -> option J) (value : nat -> double).

(** Pass [i] of a loop that writes [value i] to joint [i]. *)
Definition set_at (c : C) (i : nat) : C :=
  match joint i with
  | Some j => set j c (value i)
  | None => c
  end.

Definition set_all (indices : list nat) (c : C) : C :=
  foldl set_at c indices.

End Writes.

(** ** A plant with an arm, on which the accessors can be run *)

(** A plant context that maps the kind of a coordinate (0 translation,
    1 translation rate, 2 angle, 3 angular rate) and the name of its joint
    to the value; a joint is known by its name. *)
Definition robot_get (kind : nat) (j : string) (c : gmap (nat * string) double)
  : double :=
  default Double.zero (c !! (kind, j)).

Definition robot_set (kind : nat) (j : string) (c : gmap (nat * string) double)
    (x : double) : gmap (nat * string) double :=
  <[(kind, j) := x]> c.

Lemma robot_get_set kind j c x : robot_get kind j (robot_set kind j c x) = x.
Proof. unfold robot_get, robot_set. now rewrite lookup_insert_eq. Qed.

Lemma robot_get_set_other kind j j' c x :
  j <> j' -> robot_get kind j' (robot_set kind j c x) = robot_get kind j' c.
Proof.
  intros Hne. unfold robot_get, robot_set.
  rewrite lookup_insert_ne; [done|congruence].
Qed.

Lemma robot_get_set_kind kind kind' j j' c x :
  kind <> kind' -> robot_get kind' j' (robot_set kind j c x) = robot_get kind' j' c.
Proof.
  intros Hne. unfold robot_get, robot_set.
  rewrite lookup_insert_ne; [done|congruence].
Qed.

Definition RobotPlant : PlantApi :=
  {| PlantContext := gmap (nat * string) double;
     PrismaticJoint := string;
     GetJointByName := finger_joint;
     get_translation := robot_get 0;
     set_translation := robot_set 0;
     get_set_translation := robot_get_set 0;
     get_set_translation_other := robot_get_set_other 0;
     GetJointByName_inj := finger_joint_inj |}.

(** The revolute joints are the first [dofs] joints of the arm. *)
Definition arm_joint (dofs : nat) (name : string) : option string :=
  if bool_decide (name ∈ iiwa_joint_name <$> seq 0 dofs)
  then Some name else None.

Lemma arm_joint_inj dofs n n' j :
  arm_joint dofs n = Some j -> arm_joint dofs n' = Some j -> n = n'.
Proof.
  unfold arm_joint. intros Hn Hn'.
  destruct (bool_decide _); [|discriminate].
  destruct (bool_decide _); [|discriminate]. congruence.
Qed.

Definition RobotArm (dofs : nat) : @ArmApi RobotPlant :=
  @Build_ArmApi RobotPlant string (arm_joint dofs)
    (robot_get 2) (robot_set 2) (robot_get 3) (robot_set 3)
    (robot_get 1) (robot_set 1)
    (arm_joint_inj dofs)
    (robot_get_set 2) (robot_get_set_other 2)
    (robot_get_set 3) (robot_get_set_other 3)
    (robot_get_set 1) (robot_get_set_other 1)
    (fun p j c x => robot_get_set_kind 2 0 j p c x ltac:(discriminate))
    (fun j p c x => robot_get_set_kind 0 2 p j c x ltac:(discriminate))
    (fun p p' c x => robot_get_set_kind 1 0 p' p c x ltac:(discriminate))
    (fun p p' c x => robot_get_set_kind 0 1 p' p c x ltac:(discriminate))
    (fun j j' c x => robot_get_set_kind 3 2 j' j c x ltac:(discriminate))
    (fun j j' c x => robot_get_set_kind 2 3 j' j c x ltac:(discriminate)).

(** An interpolator whose context is the positions it was last given. *)
Definition LastPositions : InterpolatorApi :=
  {| InterpolatorContext := VectorXd;
     set_initial_positions := fun _ q => q |}.

Definition robot_context : @StationContext RobotPlant LastPositionController :=
  @Build_StationContext RobotPlant LastPositionController
    (∅ : gmap (nat * string) double) Double.zero.

Definition robot_arm_context
  : @ArmStationContext RobotPlant LastPositionController LastPositions :=
  @Build_ArmStationContext RobotPlant LastPositionController LastPositions
    robot_context [].

(** Seven joint values, among them a NaN, an infinity and [2^-1074]. *)
Definition example_q : VectorXd :=
  [Double.of_Z 1; Double.nan; S754_infinity true; Double.denorm_min;
   Double.of_Z (-3); Double.zero; Double.of_Z 7].

(** * Part II: properties *)

(** ** The monad *)

Lemma bind_returns {S A B} (c : M S A) (k : A -> M S B) s a s' :
  c s = Returns a s' -> bind c k s = k a s'.
Proof. intros Hc. unfold bind. now rewrite Hc. Qed.

Lemma bind_throws {S A B} (c : M S A) (k : A -> M S B) s e s' :
  c s = Throws e s' -> bind c k s = Throws e s'.
Proof. intros Hc. unfold bind. now rewrite Hc. Qed.

Lemma for_each_app {S B} (f : B -> M S unit) (l1 l2 : list B) s :
  for_each f (l1 ++ l2) s = bind (for_each f l1) (fun _ => for_each f l2) s.
Proof.
  revert s. induction l1 as [|b l IH]; intros s; [reflexivity|].
  cbn [for_each app]. unfold bind.
  destruct (f b s) as [[] s1|e s1]; [|reflexivity].
  rewrite IH. reflexivity.
Qed.

Lemma post_bind {S A B} (c : M S A) (k : A -> M S B) (Q1 : A -> S -> Prop)
    (Q : B -> S -> Prop) (E : exn -> S -> Prop) s :
  post Q1 E (c s) ->
  (forall a s1, Q1 a s1 -> post Q E (k a s1)) ->
  post Q E (bind c k s).
Proof.
  intros Hc Hk. unfold bind. destruct (c s) as [a s1|e s1]; simpl in *.
  - now apply Hk.
  - exact Hc.
Qed.

Lemma post_weaken {S A} (Q Q' : A -> S -> Prop) (E E' : exn -> S -> Prop)
    (o : outcome S A) :
  post Q E o ->
  (forall a s, Q a s -> Q' a s) -> (forall e s, E e s -> E' e s) ->
  post Q' E' o.
Proof. intros Ho HQ HE. destruct o; simpl in *; auto. Qed.

(** A loop keeps an invariant of the elements already passed. *)
Lemma post_for_each {S B} (f : B -> M S unit) (I : list B -> S -> Prop)
    (E : exn -> S -> Prop) (l : list B) s :
  I [] s ->
  (forall before b after s',
     l = before ++ b :: after -> I before s' ->
     post (fun _ s'' => I (before ++ [b]) s'') E (f b s')) ->
  post (fun _ s' => I l s') E (for_each f l s).
Proof.
  intros H0 Hstep.
  enough (Hgen : forall rest before s0,
             l = before ++ rest -> I before s0 ->
             post (fun _ s' => I l s') E (for_each f rest s0))
    by exact (Hgen l [] s eq_refl H0).
  induction rest as [|b rest IH]; intros before s0 Hl HI.
  - rewrite app_nil_r in Hl. subst before. exact HI.
  - change (for_each f (b :: rest)) with (bind (f b) (fun _ => for_each f rest)).
    apply post_bind with (Q1 := fun _ s' => I (before ++ [b]) s').
    + now apply (Hstep before b rest).
    + intros _ s1 H1. apply (IH (before ++ [b]) s1); [|exact H1].
      now rewrite <- app_assoc.
Qed.

(** ** Vector objects *)

Section VectorFacts.
Context {T E : Type}.
Implicit Types (w : World T E) (v : loc) (x : T).

Lemma GetAtIndex_state v i w : state_of (GetAtIndex v i w) = w.
Proof.
  unfold GetAtIndex. destruct (vectors w !! v) as [xs|]; [|done].
  now destruct (xs !! i).
Qed.

Lemma GetAtIndex_value v i w :
  value_of (GetAtIndex v i w) = vectors w !! v ≫= (fun xs : list T => xs !! i).
Proof.
  unfold GetAtIndex. destruct (vectors w !! v) as [xs|]; [|done].
  simpl. now destruct (xs !! i).
Qed.

Lemma GetAtIndex_returns v i w xs x :
  vectors w !! v = Some xs -> xs !! i = Some x ->
  GetAtIndex v i w = Returns x w.
Proof. intros Hv Hi. unfold GetAtIndex. now rewrite Hv, Hi. Qed.

(** Writing a component never changes the size of any vector, whether the
    write succeeds or not. *)
Lemma SetAtIndex_sizes v i x w l :
  length <$> vectors (state_of (SetAtIndex v i x w)) !! l
  = length <$> vectors w !! l.
Proof.
  unfold SetAtIndex. destruct (vectors w !! v) as [xs|] eqn:Hv; [|done].
  case_decide; [|done]. simpl.
  destruct (decide (v = l)) as [->|Hne].
  - rewrite lookup_insert_eq, Hv. simpl. now rewrite length_insert.
  - now rewrite lookup_insert_ne.
Qed.

Lemma invoke_vectors (f : Callback T E) (c : Context T) w :
  vectors (state_of (invoke f c w)) = vectors w.
Proof. unfold invoke. now destruct (f _ _ _). Qed.

Lemma invoke_calls (f : Callback T E) (c : Context T) w :
  calls (state_of (invoke f c w)) = calls w ++ [c].
Proof. unfold invoke. now destruct (f _ _ _). Qed.

End VectorFacts.

(** ** The logistic system *)

Section LogisticFacts.
Context {T E : Type} {scalar : Scalar T}.
Implicit Types (sys : LogisticSystem T E) (w : World T E) (c : Context T).

(** What the constructor establishes stays: the declared size, the witness
    function and its back-reference. *)
Lemma constructed_inv sys :
  constructed sys ->
  continuous_state_size sys = 1
  /\ witness_ sys = Some (LogisticWitness_ctor (this sys)).
Proof. induction 1; simpl; tauto. Qed.

Lemma set_publish_callback_constructed callback sys :
  constructed sys -> constructed (set_publish_callback callback sys).
Proof. intros Hc. unfold set_publish_callback. now constructor. Qed.

Lemma ctor_constructed self k alpha nu :
  constructed (LogisticSystem_ctor (T:=T) (E:=E) self k alpha nu).
Proof. constructor. Qed.

(** Every operation keeps every vector at its size and the system
    constructed. *)
Lemma perform_sizes op sys w l :
  length <$> vectors (perform op (sys, w)).2 !! l = length <$> vectors w !! l.
Proof.
  destruct op; simpl; try done.
  - unfold DoCalcTimeDerivatives, bind.
    destruct (GetAtIndex _ 0 w) as [x w1|e w1] eqn:Hg.
    + pose proof (GetAtIndex_state (get_continuous_state context) 0 w) as Hs.
      rewrite Hg in Hs. simpl in Hs. subst w1. apply SetAtIndex_sizes.
    + pose proof (GetAtIndex_state (get_continuous_state context) 0 w) as Hs.
      rewrite Hg in Hs. simpl in Hs. now subst w1.
  - destruct (witness_ sys); simpl; [|done].
    unfold DoEvaluate. now rewrite GetAtIndex_state.
  - unfold DoPublish. destruct (publish_callback_ sys); simpl; [|done].
    now rewrite invoke_vectors.
Qed.

Lemma perform_constructed op sys w :
  constructed sys -> constructed (perform op (sys, w)).1.
Proof.
  intros Hc. destruct op; simpl; try done.
  - now destruct (witness_ sys).
  - now apply set_publish_callback_constructed.
Qed.

Lemma perform_all_inv ops sys w :
  constructed sys ->
  constructed (perform_all ops (sys, w)).1
  /\ forall l, length <$> vectors (perform_all ops (sys, w)).2 !! l
               = length <$> vectors w !! l.
Proof.
  revert sys w. induction ops as [|op ops IH]; intros sys w Hc; [done|].
  change (perform_all (op :: ops) (sys, w))
    with (perform_all ops (perform op (sys, w))).
  pose proof (perform_constructed op sys w Hc) as Hc1.
  pose proof (perform_sizes op sys w) as Hs1.
  destruct (perform op (sys, w)) as [sys1 w1].
  simpl in Hc1, Hs1.
  destruct (IH sys1 w1 Hc1) as [Hc2 Hs2]. split; [done|].
  intros l. now rewrite Hs2, Hs1.
Qed.

(** C1: for a context whose state vector has the declared size and a
    separate derivative vector of that size, [DoCalcTimeDerivatives] returns
    normally, leaves the context (time and state vector), every other
    vector, the callback state and the call trace as they were, and leaves
    in the derivative vector exactly one component,
    [alpha * (1 - (x/k)^nu) * t]. *)
Theorem DoCalcTimeDerivatives_correct sys c (derivatives : loc) w
    (xs old : list T) :
  constructed sys ->
  vectors w !! get_continuous_state c = Some xs ->
  length xs = continuous_state_size sys ->
  vectors w !! derivatives = Some old ->
  length old = continuous_state_size sys ->
  derivatives <> get_continuous_state c ->
  exists (x : T) (w' : World T E),
    xs = [x]
    /\ DoCalcTimeDerivatives sys c derivatives w = Returns tt w'
    /\ observe c w' = observe c w
    /\ vectors w' !! derivatives
       = Some [s_mul (s_mul (of_double (alpha_ sys))
                            (s_sub (of_int 1)
                                   (s_pow (s_div x (of_double (k_ sys)))
                                          (of_double (nu_ sys)))))
                     (get_time c)]
    /\ length <$> vectors w' !! derivatives = Some (continuous_state_size sys)
    /\ (forall l, l <> derivatives -> vectors w' !! l = vectors w !! l)
    /\ env w' = env w /\ calls w' = calls w.
Proof.
  intros Hc Hxs Hlen Hold Hlold Hne.
  destruct (constructed_inv sys Hc) as [Hsize _].
  rewrite Hsize in Hlen, Hlold.
  destruct xs as [|x [|? ?]]; simpl in Hlen; try lia.
  destruct old as [|d [|? ?]]; simpl in Hlold; try lia.
  exists x.
  eexists. split; [done|]. split.
  - unfold DoCalcTimeDerivatives.
    rewrite (bind_returns _ _ w x w) by (now apply GetAtIndex_returns with [x]).
    unfold SetAtIndex. rewrite Hold. simpl. reflexivity.
  - simpl. unfold observe. simpl. rewrite lookup_insert_ne by done.
    rewrite lookup_insert_eq, Hsize. repeat split; try done.
    intros l Hl. now rewrite lookup_insert_ne.
Qed.

(** When the caller passes the context's own state vector as the output,
    the write lands in the context: the separation assumed above is
    needed. *)
Remark DoCalcTimeDerivatives_aliased sys c w (x : T) :
  vectors w !! get_continuous_state c = Some [x] ->
  vectors (state_of (DoCalcTimeDerivatives sys c (get_continuous_state c) w))
    !! get_continuous_state c
  = Some [logistic_rhs sys x (get_time c)].
Proof.
  intros Hx. unfold DoCalcTimeDerivatives.
  rewrite (bind_returns _ _ w x w) by (now apply GetAtIndex_returns with [x]).
  unfold SetAtIndex. rewrite Hx. simpl. now rewrite lookup_insert_eq.
Qed.

End LogisticFacts.

Section LogisticClaims.
Context {T E : Type} {scalar : Scalar T}.
Implicit Types (sys : LogisticSystem T E) (w : World T E) (c : Context T).

(** C2: on a context whose state vector has a component 0,
    [LogisticWitness::DoEvaluate] returns that component and leaves the
    whole world, the context included, as it was; the value depends on
    nothing but what the context shows (not on the witness object, the
    callback state or the call trace), and evaluating again gives the same
    value. *)
Theorem DoEvaluate_pure (wf : LogisticWitness) c w (x : T) (rest : list T) :
  vectors w !! get_continuous_state c = Some (x :: rest) ->
  DoEvaluate wf c w = Returns x w
  /\ observe c (state_of (DoEvaluate wf c w)) = observe c w
  /\ DoEvaluate wf c (state_of (DoEvaluate wf c w)) = Returns x w
  /\ (forall (wf' : LogisticWitness) (w' : World T E),
        observe c w' = observe c w ->
        value_of (DoEvaluate wf' c w') = Some x).
Proof.
  intros Hx.
  assert (Hr : DoEvaluate wf c w = Returns x w)
    by (unfold DoEvaluate; now apply GetAtIndex_returns with (x :: rest)).
  rewrite Hr. simpl. repeat split; [done|].
  intros wf' w' Hobs. unfold observe in Hobs.
  injection Hobs as Hv. rewrite Hx in Hv.
  unfold DoEvaluate. now rewrite GetAtIndex_value, Hv.
Qed.

(** C3: for every context, [get_witness_functions] of a constructed system
    returns a sequence of exactly one witness function, the one the system
    owns in [witness_], which refers back to this system and was built with
    trigger type crosses-zero and the publish action. *)
Theorem get_witness_functions_correct sys c :
  constructed sys ->
  exists wf : LogisticWitness,
    get_witness_functions sys c = [Some wf]
    /\ witness_ sys = Some wf
    /\ system_ wf = this sys
    /\ get_dir_type (witness_base wf) = kCrossesZero
    /\ get_action_type (witness_base wf) = kPublishAction.
Proof.
  intros Hc. destruct (constructed_inv sys Hc) as [_ Hw].
  exists (LogisticWitness_ctor (this sys)).
  unfold get_witness_functions. now rewrite Hw.
Qed.

(** C4: the constructor declares a continuous state of size 1; a context
    allocated for the system holds a state vector of that size; and after
    any sequence of operations (derivatives into any vector, witness
    evaluation, output, publish, changing the callback) the declared size is
    still 1 and every vector, the context's state included, has the size it
    had. *)
Theorem continuous_state_size_immutable (self : addr) (k alpha nu : double)
    (l : loc) (t0 x0 : T) (w : World T E) (ops : list (Operation (T:=T) (E:=E))) :
  let sys0 := LogisticSystem_ctor self k alpha nu in
  let cw := AllocateContext sys0 l t0 x0 w in
  let final := perform_all ops (sys0, cw.2) in
  continuous_state_size sys0 = 1
  /\ length <$> vectors cw.2 !! get_continuous_state cw.1 = Some 1
  /\ continuous_state_size final.1 = 1
  /\ length <$> vectors final.2 !! get_continuous_state cw.1 = Some 1
  /\ (forall l' : loc,
        length <$> vectors final.2 !! l' = length <$> vectors cw.2 !! l').
Proof.
  intros sys0 cw final.
  assert (Hc : constructed sys0) by apply ctor_constructed.
  destruct (perform_all_inv ops sys0 cw.2 Hc) as [Hc' Hs].
  fold final in Hc', Hs.
  assert (Ha : length <$> vectors cw.2 !! get_continuous_state cw.1 = Some 1).
  { subst cw. simpl. now rewrite lookup_insert_eq. }
  repeat split; try done.
  - now destruct (constructed_inv _ Hc').
  - now rewrite Hs.
Qed.

(** C9: with no callback stored, as after construction, [DoPublish] returns
    normally and leaves the world as it was, with no invocation recorded;
    with a callback stored, [DoPublish] is one invocation of that callback
    on the given context: the trace grows by exactly that context, the
    callback state and the exception, if any, are the callback's, and no
    vector changes. *)
Theorem DoPublish_correct sys c w :
  (publish_callback_ sys = None ->
     DoPublish sys c w = Returns tt w)
  /\ (forall callback : Callback T E,
        publish_callback_ sys = Some callback ->
        let r := callback (get_time c)
                          (vectors w !! get_continuous_state c) (env w) in
        DoPublish sys c w = invoke callback c w
        /\ calls (state_of (DoPublish sys c w)) = calls w ++ [c]
        /\ env (state_of (DoPublish sys c w)) = state_of r
        /\ raised (DoPublish sys c w) = raised r
        /\ vectors (state_of (DoPublish sys c w)) = vectors w)
  /\ publish_callback_
       (LogisticSystem_ctor (T:=T) (E:=E) (this sys) (k_ sys) (alpha_ sys) (nu_ sys))
     = None.
Proof.
  unfold DoPublish. split; [now intros ->|]. split; [|done].
  intros callback Hcb. rewrite Hcb. cbv zeta. repeat split.
  - apply invoke_calls.
  - unfold invoke. now destruct (callback _ _ _).
  - unfold invoke. now destruct (callback _ _ _).
  - apply invoke_vectors.
Qed.

End LogisticClaims.

(** ** The logistic system, run on the integer scalar *)

Lemma DoCalcTimeDerivatives_correct_witness :
  exists (x : Z) (w' : World Z nat),
    [4%Z] = [x]
    /\ DoCalcTimeDerivatives example_system example_context 2%positive
         example_world = Returns tt w'
    /\ observe example_context w' = observe example_context example_world
    /\ vectors w' !! 2%positive
       = Some [s_mul (s_mul (of_double (alpha_ example_system))
                            (s_sub (of_int 1)
                                   (s_pow (s_div x (of_double (k_ example_system)))
                                          (of_double (nu_ example_system)))))
                     (get_time example_context)]
    /\ length <$> vectors w' !! 2%positive
       = Some (continuous_state_size example_system)
    /\ (forall l, l <> 2%positive -> vectors w' !! l = vectors example_world !! l)
    /\ env w' = env example_world /\ calls w' = calls example_world.
Proof.
  apply (DoCalcTimeDerivatives_correct example_system example_context
           2%positive example_world [4%Z] [0%Z]).
  - apply ctor_constructed.
  - reflexivity.
  - reflexivity.
  - reflexivity.
  - reflexivity.
  - discriminate.
Defined.

(** The derivative at the example: [3 * (1 - (4/2)^2) * 5 = -45]. *)
Example DoCalcTimeDerivatives_example :
  vectors (state_of (DoCalcTimeDerivatives example_system example_context
                       2%positive example_world)) !! 2%positive
  = Some [(-45)%Z].
Proof. reflexivity. Qed.

(** C1 as first stated, for every call the method accepts, fails in two
    ways.  Handed the context's own state vector as the output, the method
    overwrites the state, so that the context is mutated; handed a vector of
    two components, it leaves a vector of two components, not one of the
    declared size. *)
Lemma DoCalcTimeDerivatives_context_counterexample :
  (exists w' : World Z nat,
     DoCalcTimeDerivatives example_system example_context
       (get_continuous_state example_context) example_world = Returns tt w'
     /\ observe example_context w' <> observe example_context example_world)
  /\ (exists w' : World Z nat,
        DoCalcTimeDerivatives example_system example_context 3%positive
          wide_world = Returns tt w'
        /\ length <$> vectors w' !! 3%positive = Some 2
        /\ continuous_state_size example_system = 1).
Proof.
  split.
  - eexists. split; [reflexivity|]. vm_compute. discriminate.
  - eexists. split; [reflexivity|]. split; reflexivity.
Qed.

Lemma DoEvaluate_pure_witness :
  DoEvaluate (LogisticWitness_ctor 1%positive) example_context example_world
  = Returns 4%Z example_world.
Proof.
  refine (proj1 (DoEvaluate_pure (LogisticWitness_ctor 1%positive)
                  example_context example_world 4%Z [] _)).
  reflexivity.
Defined.

Lemma get_witness_functions_correct_witness :
  exists wf : LogisticWitness,
    get_witness_functions example_system example_context = [Some wf]
    /\ witness_ example_system = Some wf
    /\ system_ wf = this example_system
    /\ get_dir_type (witness_base wf) = kCrossesZero
    /\ get_action_type (witness_base wf) = kPublishAction.
Proof.
  apply (get_witness_functions_correct example_system example_context).
  apply ctor_constructed.
Defined.

Lemma DoPublish_correct_witness :
  DoPublish example_system example_context example_world
  = Returns tt example_world
  /\ calls (state_of (DoPublish
                        (set_publish_callback (Some counting_callback) example_system)
                        example_context example_world))
     = [example_context].
Proof.
  split.
  - apply (proj1 (DoPublish_correct example_system example_context example_world)).
    reflexivity.
  - apply (proj1 (proj2 (DoPublish_correct
                           (set_publish_callback (Some counting_callback) example_system)
                           example_context example_world))
             counting_callback).
    reflexivity.
Defined.

(** ** IEEE-754 binary64: comparison with zero, and halving *)

Section DoubleFacts.
Import Double.

Lemma geb_zero_false (g : double) :
  geb g zero = false <-> negative g = true \/ is_nan g = true.
Proof.
  unfold geb, negative, ltb, zero.
  destruct g as [[]|[]| |[] m e]; cbn; intuition discriminate.
Qed.

Lemma forallb_false {A} (f : A -> bool) (l : list A) :
  forallb f l = false <-> exists x, x ∈ l /\ f x = false.
Proof.
  induction l as [|a l IH]; simpl.
  - split; [discriminate|]. intros (x & Hx & _). inversion Hx.
  - rewrite andb_false_iff, IH. split.
    + intros [Ha|(x & Hx & Hf)].
      * exists a. split; [constructor|done].
      * exists x. split; [now constructor|done].
    + intros (x & Hx & Hf). inversion Hx; subst; [now left|right; eauto].
Qed.

Lemma fexp_eq x : fexp prec emax x = Z.max (x - 53) (-1074).
Proof. reflexivity. Qed.

(** Rounding a mantissa that is already canonical changes nothing. *)
Lemma round_bounded s m e :
  bounded prec emax m e = true ->
  binary_round_aux prec emax s (Z.pos m) e loc_Exact = S754_finite s m e.
Proof.
  unfold bounded, canonical_mantissa. rewrite andb_true_iff.
  intros [Hc%Z.eqb_eq Hle].
  unfold binary_round_aux, shr_fexp.
  change (Zdigits2 (Z.pos m)) with (Z.pos (digits2_pos m)).
  rewrite Hc, Z.sub_diag.
  cbn [shr shr_record_of_loc shr_m loc_of_shr_record round_nearest_even].
  change (Zdigits2 (Z.pos m)) with (Z.pos (digits2_pos m)).
  rewrite Hc, Z.sub_diag. cbn [shr shr_record_of_loc shr_m].
  now rewrite Hle.
Qed.

(** Rounding a 54-bit mantissa whose last bit is 0 drops that bit. *)
Lemma round_even s m e :
  Z.pos (digits2_pos m) = 53%Z -> (-1075 <= e <= 970)%Z ->
  binary_round_aux prec emax s (Z.pos m~0) e loc_Exact = S754_finite s m (e + 1).
Proof.
  intros Hd He. unfold binary_round_aux, shr_fexp. simpl Zdigits2.
  rewrite Pos2Z.inj_succ, Hd, fexp_eq.
  replace (Z.max (Z.succ 53 + e - 53) (-1074) - e)%Z with 1%Z by lia.
  simpl. rewrite Hd, fexp_eq.
  replace (Z.max (53 + (e + 1) - 53) (-1074) - (e + 1))%Z with 0%Z by lia.
  simpl. unfold emax, prec.
  destruct (Z.leb_spec (e + 1) (1024 - 53)); [done|lia].
Qed.

Lemma bounded_cases m e :
  bounded prec emax m e = true ->
  (Z.pos (digits2_pos m) = 53 /\ -1074 < e <= 971)%Z
  \/ (e = -1074 /\ Z.pos (digits2_pos m) <= 53)%Z.
Proof.
  unfold bounded, canonical_mantissa. rewrite andb_true_iff, fexp_eq.
  intros [Hc%Z.eqb_eq Hle%Z.leb_le].
  change (emax - prec)%Z with 971%Z in Hle. lia.
Qed.

Lemma bounded_min m :
  (Z.pos (digits2_pos m) <= 53)%Z -> bounded prec emax m (-1074) = true.
Proof.
  intros Hd. unfold bounded, canonical_mantissa. rewrite fexp_eq.
  apply andb_true_intro. split; [|done]. apply Z.eqb_eq. lia.
Qed.

Lemma div_eucl_exact m a b :
  (0 < b)%Z -> Z.div_eucl (Z.pos m * (a * b)) b = (Z.pos m * a, 0)%Z.
Proof.
  intros Hb.
  assert (Hq : (Z.pos m * (a * b) / b = Z.pos m * a)%Z)
    by (rewrite Z.mul_assoc; apply Z.div_mul; lia).
  assert (Hr : ((Z.pos m * (a * b)) mod b = 0)%Z)
    by (rewrite Z.mul_assoc; apply Z.mod_mul; lia).
  unfold Z.div, Z.modulo in Hq, Hr.
  destruct (Z.div_eucl (Z.pos m * (a * b)) b) as [q r]. now subst.
Qed.

(** The mantissa of [2.0], which is [2^52 * 2^-51]. *)
Definition two_mantissa : positive := 4503599627370496.

Lemma of_Z_two : of_Z 2 = S754_finite false two_mantissa (-51).
Proof. reflexivity. Qed.

(** Dividing a normal double above the smallest exponent by 2. *)
Lemma div_core_normal m e :
  Z.pos (digits2_pos m) = 53%Z -> (-1074 < e <= 971)%Z ->
  SFdiv_core_binary prec emax (Z.pos m) e (Z.pos two_mantissa) (-51)
  = if (e =? -1073)%Z then (Z.pos m, (-1074)%Z, loc_Exact)
    else (Z.pos m~0, (e - 2)%Z, loc_Exact).
Proof.
  intros Hd He. unfold SFdiv_core_binary. cbv zeta.
  change (Zdigits2 (Z.pos m)) with (Z.pos (digits2_pos m)). rewrite Hd.
  change (Zdigits2 (Z.pos two_mantissa)) with 53%Z.
  rewrite fexp_eq.
  destruct (Z.eqb_spec e (-1073)) as [->|Hne].
  - change (Z.min (Z.max (53 + -1073 - (53 + -51) - 53) (-1074)) (-1073 - -51))%Z
      with (-1074)%Z.
    change (-1073 - -51 - -1074)%Z with 52%Z. cbv iota.
    rewrite Z.shiftl_mul_pow2 by done.
    change (2 ^ 52)%Z with (1 * Z.pos two_mantissa)%Z.
    rewrite div_eucl_exact by done.
    change (new_location (Z.pos two_mantissa) 0) with loc_Exact.
    now rewrite Z.mul_1_r.
  - replace (Z.min (Z.max (53 + e - (53 + -51) - 53) (-1074)) (e - -51))%Z
      with (e - 2)%Z by lia.
    replace (e - -51 - (e - 2))%Z with 53%Z by lia. cbv iota.
    rewrite Z.shiftl_mul_pow2 by done.
    change (2 ^ 53)%Z with (2 * Z.pos two_mantissa)%Z.
    rewrite div_eucl_exact by done.
    change (new_location (Z.pos two_mantissa) 0) with loc_Exact.
    change (Z.pos m * 2)%Z with (Z.pos (m * 2)).
    rewrite Pos.mul_comm. reflexivity.
Qed.

Lemma div_two_normal s m e :
  Z.pos (digits2_pos m) = 53%Z -> (-1074 < e <= 971)%Z ->
  div (S754_finite s m e) (of_Z 2) = S754_finite s m (e - 1).
Proof.
  intros Hd He. rewrite of_Z_two. unfold div, SFdiv.
  rewrite div_core_normal by done. rewrite xorb_false_r.
  destruct (Z.eqb_spec e (-1073)) as [->|Hne].
  - apply round_bounded, bounded_min. lia.
  - rewrite round_even by (done || lia). f_equal. lia.
Qed.

(** Dividing an even multiple of [2^-1074] by 2. *)
Lemma div_core_min m :
  (Z.pos (digits2_pos m~0) <= 53)%Z ->
  SFdiv_core_binary prec emax (Z.pos m~0) (-1074) (Z.pos two_mantissa) (-51)
  = (Z.pos m, (-1074)%Z, loc_Exact).
Proof.
  intros Hd. unfold SFdiv_core_binary. cbv zeta.
  change (Zdigits2 (Z.pos m~0)) with (Z.pos (digits2_pos m~0)).
  change (Zdigits2 (Z.pos two_mantissa)) with 53%Z.
  rewrite fexp_eq.
  replace (Z.min (Z.max (Z.pos (digits2_pos m~0) + -1074 - (53 + -51) - 53) (-1074))
                 (-1074 - -51))%Z with (-1074)%Z by lia.
  change (-1074 - -51 - -1074)%Z with 51%Z. cbv iota.
  rewrite Z.shiftl_mul_pow2 by done.
  change (2 ^ 51)%Z with 2251799813685248%Z.
  replace (Z.pos m~0 * 2251799813685248)%Z
    with (Z.pos m * (1 * Z.pos two_mantissa))%Z by (unfold two_mantissa; lia).
  rewrite div_eucl_exact by done.
  change (new_location (Z.pos two_mantissa) 0) with loc_Exact.
  now rewrite Z.mul_1_r.
Qed.

Lemma div_two_min s m :
  (Z.pos (digits2_pos m~0) <= 53)%Z ->
  div (S754_finite s m~0 (-1074)) (of_Z 2) = S754_finite s m (-1074).
Proof.
  intros Hd. rewrite of_Z_two. unfold div, SFdiv.
  rewrite div_core_min by done. rewrite xorb_false_r.
  apply round_bounded, bounded_min.
  change (digits2_pos m~0) with (Pos.succ (digits2_pos m)) in Hd. lia.
Qed.

(** [x - (-x)] doubles the mantissa; rounding then settles the exponent. *)
Lemma sub_opposite s m e :
  sub (S754_finite s m e) (S754_finite (negb s) m e)
  = binary_round prec emax s m~0 e.
Proof.
  unfold sub, SFsub. cbv zeta.
  rewrite Z.min_id. unfold shl_align at 1 2. rewrite Z.sub_diag. cbv iota. simpl fst.
  destruct s; simpl negb; unfold cond_Zopp.
  - change (- Z.pos m - Z.pos m)%Z with (Z.neg (m + m)).
    now rewrite Pos.add_diag.
  - change (Z.pos m - - Z.pos m)%Z with (Z.pos (m + m)).
    now rewrite Pos.add_diag.
Qed.

Lemma sub_opposite_normal s m e :
  Z.pos (digits2_pos m) = 53%Z -> (-1075 <= e <= 970)%Z ->
  sub (S754_finite s m e) (S754_finite (negb s) m e) = S754_finite s m (e + 1).
Proof.
  intros Hd He. rewrite sub_opposite. unfold binary_round, shl_align.
  change (Z.pos (digits2_pos m~0)) with (Z.pos (Pos.succ (digits2_pos m))).
  rewrite Pos2Z.inj_succ, Hd, fexp_eq.
  replace (Z.max (Z.succ 53 + e - 53) (-1074) - e)%Z with 1%Z by lia.
  cbv iota. now apply round_even.
Qed.

Lemma sub_opposite_min s m :
  (Z.pos (digits2_pos m~0) <= 53)%Z ->
  sub (S754_finite s m (-1074)) (S754_finite (negb s) m (-1074))
  = S754_finite s m~0 (-1074).
Proof.
  intros Hd. rewrite sub_opposite. unfold binary_round, shl_align.
  rewrite fexp_eq.
  replace (Z.max (Z.pos (digits2_pos m~0) + -1074 - 53) (-1074) - -1074)%Z
    with 0%Z by lia.
  cbv iota. now apply round_bounded, bounded_min.
Qed.

(** Halving a double and subtracting the half of its opposite gives the
    double back, for every double but the odd multiples of [2^-1074]. *)
Lemma half_minus_opposite_half (q : double) :
  valid q = true -> halves_exactly q = true ->
  sub (div q (of_Z 2)) (div (neg q) (of_Z 2)) = q.
Proof.
  destruct q as [[]|[]| |s m e]; try reflexivity.
  unfold valid. simpl valid_binary. intros Hb Hodd.
  destruct (bounded_cases m e Hb) as [[Hd He]|[-> Hd]].
  - simpl neg. rewrite !div_two_normal by done.
    rewrite sub_opposite_normal by (done || lia). f_equal. lia.
  - unfold halves_exactly in Hodd. simpl in Hodd.
    destruct m as [m|m|]; try discriminate.
    simpl neg. rewrite !div_two_min by done. now apply sub_opposite_min.
Qed.

(** ** Halving an odd multiple of [2^-1074] rounds to an even one *)

Lemma digits2_pos_succ p :
  (Z.pos (digits2_pos (Pos.succ p)) <= Z.pos (digits2_pos p) + 1)%Z.
Proof.
  induction p as [p IH|p IH|]; simpl digits2_pos; lia.
Qed.

Lemma div_eucl_half p c :
  (0 < c)%Z -> Z.div_eucl (Z.pos p~1 * c) (2 * c) = (Z.pos p, c).
Proof.
  intros Hc.
  replace (Z.pos p~1 * c)%Z with (Z.pos p * (2 * c) + c)%Z
    by (rewrite Pos2Z.inj_xI; ring).
  assert (Hq : ((Z.pos p * (2 * c) + c) / (2 * c) = Z.pos p)%Z).
  { rewrite Z.div_add_l by lia. rewrite Z.div_small by lia. lia. }
  assert (Hr : ((Z.pos p * (2 * c) + c) mod (2 * c) = c)%Z).
  { rewrite Z.add_comm, Z.mod_add by lia. apply Z.mod_small. lia. }
  unfold Z.div, Z.modulo in Hq, Hr.
  destruct (Z.div_eucl _ _) as [q r]. now subst.
Qed.

(** The half of [(2p+1) * 2^-1074] is a tie, rounded to the even
    neighbour. *)
Definition tie_to_even (p : positive) : positive :=
  if Z.even (Z.pos p) then p else Pos.succ p.

Lemma tie_to_even_digits p :
  (Z.pos (digits2_pos p~1) <= 53)%Z ->
  (Z.pos (digits2_pos (tie_to_even p)) <= 53)%Z.
Proof.
  intros Hd. change (digits2_pos p~1) with (Pos.succ (digits2_pos p)) in Hd.
  unfold tie_to_even. destruct (Z.even _); [lia|].
  pose proof (digits2_pos_succ p). lia.
Qed.

Lemma div_two_odd s p :
  (Z.pos (digits2_pos p~1) <= 53)%Z ->
  div (S754_finite s p~1 (-1074)) (of_Z 2)
  = S754_finite s (tie_to_even p) (-1074).
Proof.
  intros Hd. pose proof (tie_to_even_digits p Hd) as Hd'.
  change (digits2_pos p~1) with (Pos.succ (digits2_pos p)) in Hd.
  rewrite of_Z_two. unfold div, SFdiv, SFdiv_core_binary. cbv zeta.
  change (Zdigits2 (Z.pos p~1)) with (Z.pos (Pos.succ (digits2_pos p))).
  change (Zdigits2 (Z.pos two_mantissa)) with 53%Z.
  rewrite fexp_eq.
  replace (Z.min (Z.max (Z.pos (Pos.succ (digits2_pos p)) + -1074 - (53 + -51) - 53)
                        (-1074)) (-1074 - -51))%Z with (-1074)%Z by lia.
  change (-1074 - -51 - -1074)%Z with 51%Z. cbv iota.
  rewrite Z.shiftl_mul_pow2 by done.
  change (2 ^ 51)%Z with 2251799813685248%Z.
  change (Z.pos two_mantissa) with (2 * 2251799813685248)%Z.
  rewrite div_eucl_half by done.
  change (new_location (2 * 2251799813685248) 2251799813685248)
    with (loc_Inexact Eq).
  rewrite xorb_false_r.
  unfold binary_round_aux, shr_fexp.
  change (Zdigits2 (Z.pos p)) with (Z.pos (digits2_pos p)).
  rewrite fexp_eq.
  replace (Z.max (Z.pos (digits2_pos p) + -1074 - 53) (-1074) - -1074)%Z
    with 0%Z by lia.
  cbn [shr shr_record_of_loc shr_m loc_of_shr_record round_nearest_even].
  replace (if Z.even (Z.pos p) then Z.pos p else (Z.pos p + 1)%Z)
    with (Z.pos (tie_to_even p))
    by (unfold tie_to_even; destruct (Z.even _); [done|lia]).
  change (Zdigits2 (Z.pos (tie_to_even p)))
    with (Z.pos (digits2_pos (tie_to_even p))).
  rewrite fexp_eq.
  replace (Z.max (Z.pos (digits2_pos (tie_to_even p)) + -1074 - 53) (-1074)
           - -1074)%Z with 0%Z by lia.
  reflexivity.
Qed.

(** Doubling an even mantissa at the smallest exponent never gives back an
    odd one there. *)
Lemma double_even_not_odd s k p :
  (Z.pos (digits2_pos k) <= 53)%Z ->
  binary_round prec emax s k~0 (-1074) <> S754_finite s p~1 (-1074).
Proof.
  intros Hd. unfold binary_round, shl_align. rewrite fexp_eq.
  change (digits2_pos k~0) with (Pos.succ (digits2_pos k)).
  destruct (Z.eq_dec (Z.pos (digits2_pos k)) 53%Z) as [H53|Hlt].
  - rewrite Pos2Z.inj_succ, H53.
    change (Z.max (Z.succ 53 + -1074 - 53) (-1074) - -1074)%Z with 1%Z.
    cbv iota. rewrite round_even by (done || lia). discriminate.
  - replace (Z.max (Z.pos (Pos.succ (digits2_pos k)) + -1074 - 53) (-1074)
             - -1074)%Z with 0%Z by lia.
    cbv iota. rewrite round_bounded.
    + discriminate.
    + apply bounded_min.
      change (digits2_pos k~0) with (Pos.succ (digits2_pos k)). lia.
Qed.

(** For the odd multiples of [2^-1074] the difference of the halves is
    another double. *)
Lemma half_minus_opposite_half_odd (q : double) :
  valid q = true -> halves_exactly q = false ->
  sub (div q (of_Z 2)) (div (neg q) (of_Z 2)) <> q.
Proof.
  destruct q as [[]|[]| |s m e]; try discriminate.
  unfold valid. simpl valid_binary. intros Hb Hodd.
  unfold halves_exactly in Hodd. apply negb_false_iff, andb_true_iff in Hodd.
  destruct Hodd as [He%Z.eqb_eq Hm]. change (emin prec emax) with (-1074)%Z in He.
  subst e.
  destruct (bounded_cases m _ Hb) as [[_ ?]|[_ Hd]]; [lia|].
  destruct m as [p|p|]; [|discriminate|].
  - simpl neg. rewrite !div_two_odd by done.
    rewrite sub_opposite.
    apply double_even_not_odd. now apply tie_to_even_digits.
  - destruct s; vm_compute; discriminate.
Qed.

(** Exactly the odd multiples of [2^-1074] fail to come back. *)
Lemma half_minus_opposite_half_iff (q : double) :
  valid q = true ->
  sub (div q (of_Z 2)) (div (neg q) (of_Z 2)) = q <-> halves_exactly q = true.
Proof.
  intros Hv. split.
  - intros Heq. destruct (halves_exactly q) eqn:Hh; [done|].
    now destruct (half_minus_opposite_half_odd q Hv Hh).
  - now apply half_minus_opposite_half.
Qed.

End DoubleFacts.

(** ** The manipulation station *)

Section StationClaims.
Context {poses : Poses} {plant_api : PlantApi} {wsg_api : WsgControllerApi}
        {files : ModelFilesApi} {library : LibraryApi}.
Implicit Types (st : ManipulationStation) (c : StationContext).

(** C5, as the code has it: [SetIiwaGains] throws exactly when the plant is
    finalized, or the sizes differ, or some new gain fails the test
    [g >= 0], which is the case of a negative gain and of a NaN; when it
    throws, it is with the error of [DRAKE_THROW_UNLESS] and the stored
    gains are unchanged; otherwise the stored gains become the new gains. *)
Theorem SetIiwaGains_correct st (new_gains gains : VectorXd) :
  let r := SetIiwaGains st new_gains gains in
  (throws r = true <->
     is_finalized (plant_ st) = true
     \/ length new_gains <> length gains
     \/ exists g, g ∈ new_gains /\ Double.geb g Double.zero = false)
  /\ (forall g : double,
        Double.geb g Double.zero = false <->
        Double.negative g = true \/ Double.is_nan g = true)
  /\ (throws r = true ->
        state_of r = gains /\ exists text, raised r = Some (ThrowUnless text))
  /\ (throws r = false -> state_of r = new_gains).
Proof.
  cbv zeta. unfold SetIiwaGains, bind, get, put.
  split; [|split; [exact geb_zero_false|]].
  - destruct (is_finalized (plant_ st)); simpl; [intuition|].
    destruct (Nat.eqb_spec (length new_gains) (length gains)) as [Hlen|Hlen];
      simpl; [|intuition].
    destruct (forallb _ new_gains) eqn:Hall; simpl.
    + split; [discriminate|]. intros [?|[?|Hex]]; try done.
      apply forallb_false in Hex. congruence.
    + split; [|done]. intros _. right. right. now apply forallb_false.
  - destruct (is_finalized (plant_ st)); simpl; [split; eauto; discriminate|].
    destruct (length new_gains =? length gains); simpl;
      [|split; eauto; discriminate].
    destruct (forallb _ new_gains); simpl; split; eauto; discriminate.
Qed.

(** C6: when the iiwa or the wsg controller model has an invalid model
    instance index, [Finalize] throws the error of [DRAKE_THROW_UNLESS], for
    the first of the two checks that fails, from the station as it was:
    nothing is parsed, the plant is not finalized by the call and no diagram
    is installed. *)
Theorem Finalize_requires_models (parses : string -> bool) st :
  is_valid (model_instance (iiwa_model_ st)) = false
  \/ is_valid (model_instance (wsg_model_ st)) = false ->
  Finalize parses st
  = Throws (ThrowUnless
              (if is_valid (model_instance (iiwa_model_ st))
               then "wsg_model_.model_instance.is_valid()"
               else "iiwa_model_.model_instance.is_valid()")) st
  /\ diagram_ (state_of (Finalize parses st)) = diagram_ st
  /\ is_finalized (plant_ (state_of (Finalize parses st)))
     = is_finalized (plant_ st).
Proof.
  intros Hinvalid.
  assert (Hthrow : Finalize parses st
                   = Throws (ThrowUnless
                               (if is_valid (model_instance (iiwa_model_ st))
                                then "wsg_model_.model_instance.is_valid()"
                                else "iiwa_model_.model_instance.is_valid()")) st).
  { unfold Finalize, bind, get.
    destruct (is_valid (model_instance (iiwa_model_ st))) eqn:Hi; simpl.
    - destruct Hinvalid as [?|Hw]; [done|]. now rewrite Hw.
    - reflexivity. }
  rewrite Hthrow. simpl. eauto.
Qed.

(** A station on which no controller model was registered has both indices
    invalid; so has every station until the registration is made. *)
Lemma ctor_models_invalid plant0 kp kd :
  is_valid (model_instance (iiwa_model_ (ManipulationStation_ctor plant0 kp kd)))
  = false
  /\ is_valid (model_instance (wsg_model_ (ManipulationStation_ctor plant0 kp kd)))
     = false.
Proof. split; reflexivity. Qed.

(** The sibling [SetWsgGains] guards in the same way: it throws exactly
    when the plant is finalized or one of the two gains fails [g >= 0], and
    then leaves the station as it was. *)
Remark SetWsgGains_guard st (kp kd : double) :
  (throws (SetWsgGains kp kd st) = true <->
     is_finalized (plant_ st) = true
     \/ Double.geb kp Double.zero = false
     \/ Double.geb kd Double.zero = false)
  /\ (throws (SetWsgGains kp kd st) = true -> state_of (SetWsgGains kp kd st) = st)
  /\ (throws (SetWsgGains kp kd st) = false ->
        wsg_kp_ (state_of (SetWsgGains kp kd st)) = kp
        /\ wsg_kd_ (state_of (SetWsgGains kp kd st)) = kd).
Proof.
  unfold SetWsgGains, bind, get, modify.
  destruct (is_finalized (plant_ st)); simpl;
    [repeat split; auto; discriminate|].
  destruct (Double.geb kp Double.zero); simpl;
    [|repeat split; auto; discriminate].
  destruct (Double.geb kd Double.zero); simpl.
  - repeat split; try discriminate. intros [?|[?|?]]; discriminate.
  - repeat split; auto; discriminate.
Qed.

End StationClaims.

Section GripperAndCameras.
Context {poses : Poses} {plant_api : PlantApi} {wsg_api : WsgControllerApi}
        {files : ModelFilesApi} {library : LibraryApi}.
Implicit Types (st : ManipulationStation) (c : StationContext).

(** On a built station whose gripper has its two finger joints,
    [SetWsgPosition] returns, leaving [q/2] in the right finger, [(-q)/2] in
    the left one and [q] in the controller; [GetWsgPosition] then returns
    their difference and changes nothing. *)
Lemma SetWsgPosition_then_get st (q : double) c (right left : PrismaticJoint) :
  "plant" ∈ subsystem_names st ->
  "wsg_controller" ∈ subsystem_names st ->
  GetJointByName "right_finger_sliding_joint" (model_instance (wsg_model_ st))
  = Some right ->
  GetJointByName "left_finger_sliding_joint" (model_instance (wsg_model_ st))
  = Some left ->
  exists c',
    SetWsgPosition st q c = Returns tt c'
    /\ get_translation right (plant_context c') = Double.div q (Double.of_Z 2)
    /\ get_translation left (plant_context c')
       = Double.div (Double.neg q) (Double.of_Z 2)
    /\ wsg_controller_context c'
       = set_initial_position (wsg_controller_context c) q
    /\ GetWsgPosition st c'
       = Returns (Double.sub (Double.div q (Double.of_Z 2))
                             (Double.div (Double.neg q) (Double.of_Z 2))) c'.
Proof.
  intros Hplant Hctl Hr Hl.
  assert (Hne : left <> right).
  { intros ->.
    pose proof (GetJointByName_inj _ _ _ _ Hr Hl) as Hnames. discriminate. }
  eexists. split.
  { unfold SetWsgPosition, bind, GetSubsystemByName, FindJoint, modify, ret.
    rewrite !bool_decide_eq_true_2 by done. rewrite Hr, Hl. reflexivity. }
  simpl.
  rewrite get_set_translation.
  rewrite get_set_translation_other, get_set_translation by done.
  repeat split.
  unfold GetWsgPosition, bind, GetSubsystemByName, FindJoint, get, ret.
  rewrite !bool_decide_eq_true_2 by done. rewrite Hr, Hl. simpl.
  rewrite get_set_translation.
  now rewrite get_set_translation_other, get_set_translation by done.
Qed.

(** C8, as the code has it: on a built station whose gripper has its two
    finger joints, from any station context and for every double [q],
    [SetWsgPosition(q)] followed by [GetWsgPosition] returns
    [q/2 - (-q)/2]; this is [q] exactly when [q] is not an odd multiple of
    [2^-1074] (the zeros, the infinities and NaN do come back). *)
Theorem WsgPosition_roundtrip st (q : double) c :
  "plant" ∈ subsystem_names st ->
  "wsg_controller" ∈ subsystem_names st ->
  is_Some (GetJointByName "right_finger_sliding_joint"
             (model_instance (wsg_model_ st))) ->
  is_Some (GetJointByName "left_finger_sliding_joint"
             (model_instance (wsg_model_ st))) ->
  Double.valid q = true ->
  exists (c' : StationContext) (r : double),
    SetWsgPosition st q c = Returns tt c'
    /\ GetWsgPosition st c' = Returns r c'
    /\ r = Double.sub (Double.div q (Double.of_Z 2))
                      (Double.div (Double.neg q) (Double.of_Z 2))
    /\ (r = q <-> Double.halves_exactly q = true).
Proof.
  intros Hplant Hctl [right Hr] [left Hl] Hvalid.
  destruct (SetWsgPosition_then_get st q c right left Hplant Hctl Hr Hl)
    as (c' & Hset & _ & _ & _ & Hget).
  exists c'. eexists. repeat split; [done|exact Hget| |].
  - now apply half_minus_opposite_half_iff.
  - now apply half_minus_opposite_half_iff.
Qed.

Lemma refusal_mono (l1 l2 : list LibraryCall) (e : exn) :
  (forall call, call ∈ l1 -> call ∈ l2) -> refusal l1 e -> refusal l2 e.
Proof.
  intros Hsub (s & b & call & Hin & Hacc & He).
  exists s, b, call. auto.
Qed.

(** A call into the library returns with nothing changed, or is
    refused. *)
Lemma library_call_post (call : LibraryCall) sb :
  post (fun _ sb' => sb' = sb) (fun e sb' => refusal [call] e /\ sb' = sb)
       (library_call call sb).
Proof.
  unfold library_call, bind, get, post.
  destruct (LibraryAccepts sb.1 sb.2 call) eqn:Hacc; simpl; [done|].
  split; [|done]. exists sb.1, sb.2, call. split; [constructor|done].
Qed.

Lemma builder_call_post (call : BuilderCall) sb :
  post (fun _ sb' => sb' = (sb.1, sb.2 ++ [call]))
       (fun e sb' => refusal (Builder <$> [call]) e /\ sb' = sb)
       (builder_call call sb).
Proof.
  unfold builder_call, library_call, bind, get, modify, post.
  destruct (LibraryAccepts sb.1 sb.2 (Builder call)) eqn:Hacc; simpl; [done|].
  split; [|done]. exists sb.1, sb.2, (Builder call). split; [constructor|done].
Qed.

Lemma builder_calls_post (calls : list BuilderCall) sb :
  post (fun _ sb' => sb' = (sb.1, sb.2 ++ calls))
       (fun e sb' => refusal (Builder <$> calls) e /\ sb'.1 = sb.1)
       (for_each builder_call calls sb).
Proof.
  apply (post_for_each builder_call
           (fun passed sb' => sb' = (sb.1, sb.2 ++ passed))).
  - destruct sb. simpl. now rewrite app_nil_r.
  - intros before b after s' Hl ->.
    apply (post_weaken _ _ _ _ _ (builder_call_post b _)); simpl.
    + intros _ s0 ->. now rewrite app_assoc.
    + intros e s0 [Hc ->]. split; [|done].
      apply (refusal_mono [Builder b]); [|exact Hc].
      intros call ->%list_elem_of_singleton. rewrite Hl.
      apply list_elem_of_fmap. exists b. split; [done|].
      apply elem_of_app. right. constructor.
Qed.

(** One pass of the loop over the cameras. *)
Lemma add_camera_post (entry : string * CameraInformation) sb :
  post (fun _ sb' =>
          is_Some (GetBodyFrameIdIfExists (plant_ sb.1)
                     (frame_body_index (camera_parent_frame entry.2)))
          /\ sb' = (sb.1, sb.2 ++ camera_calls_of sb.1 entry))
       (fun e sb' =>
          sb'.1 = sb.1
          /\ (refusal (Builder <$> camera_calls_of sb.1 entry) e
              \/ (e = ThrowUnless "parent_body_id.has_value()"
                  /\ GetBodyFrameIdIfExists (plant_ sb.1)
                       (frame_body_index (camera_parent_frame entry.2)) = None)))
       (add_camera entry sb).
Proof.
  unfold add_camera, bind, get, camera_calls_of. cbn [post].
  destruct (GetBodyFrameIdIfExists (plant_ sb.1)
              (frame_body_index (camera_parent_frame entry.2))) as [id|] eqn:Hid.
  - apply (post_weaken _ _ _ _ _ (builder_calls_post _ _)).
    + intros _ s0 ->. eauto.
    + intros e s0 [Hc Hs]. auto.
  - simpl. auto.
Qed.

(** The loop over the cameras: it returns when every parent body has a
    geometry frame and the library takes every call, having given the
    builder the calls for each camera in turn; it leaves the station
    alone. *)
Lemma add_cameras_post (l : list (string * CameraInformation)) sb :
  post (fun _ sb' =>
          (forall entry, entry ∈ l ->
             is_Some (GetBodyFrameIdIfExists (plant_ sb.1)
                        (frame_body_index (camera_parent_frame entry.2))))
          /\ sb' = (sb.1, sb.2 ++ flat_map (camera_calls_of sb.1) l))
       (fun e sb' =>
          sb'.1 = sb.1
          /\ (refusal (Builder <$> flat_map (camera_calls_of sb.1) l) e
              \/ (e = ThrowUnless "parent_body_id.has_value()"
                  /\ exists entry, entry ∈ l
                     /\ GetBodyFrameIdIfExists (plant_ sb.1)
                          (frame_body_index (camera_parent_frame entry.2))
                        = None)))
       (for_each add_camera l sb).
Proof.
  apply (post_for_each add_camera
           (fun passed sb' =>
              (forall entry, entry ∈ passed ->
                 is_Some (GetBodyFrameIdIfExists (plant_ sb.1)
                            (frame_body_index (camera_parent_frame entry.2))))
              /\ sb' = (sb.1, sb.2 ++ flat_map (camera_calls_of sb.1) passed))).
  - split; [intros entry Hin; inversion Hin|].
    destruct sb. simpl. now rewrite app_nil_r.
  - intros before entry after s' Hl [Hall ->].
    assert (Hentry : entry ∈ l)
      by (rewrite Hl; apply elem_of_app; right; constructor).
    apply (post_weaken _ _ _ _ _ (add_camera_post entry _)); cbn [fst snd].
    + intros _ s0 [Hsome ->]. split.
      * intros e He. apply elem_of_app in He as [He|He]; [now apply Hall|].
        apply list_elem_of_singleton in He. now subst e.
      * rewrite flat_map_app. simpl. now rewrite app_nil_r, app_assoc.
    + intros e s0 [Hs [Hc|[He Hnone]]]; (split; [done|]).
      * left. apply (refusal_mono (Builder <$> camera_calls_of sb.1 entry));
          [|exact Hc].
        intros call (b & -> & Hb)%list_elem_of_fmap.
        apply list_elem_of_fmap. exists b. split; [done|].
        apply list_elem_of_In, in_flat_map. exists entry.
        split; apply list_elem_of_In; done.
      * right. split; [done|]. now exists entry.
Qed.

(** The calls for the cameras are among the calls of [Finalize]. *)
Lemma Builder_allowed st (calls : list BuilderCall) (call : LibraryCall) :
  (forall b, b ∈ calls -> b ∈ Finalize_calls st) ->
  call ∈ Builder <$> calls ->
  call ∈ ControllerPlantFinalize :: BuildInto :: (Builder <$> Finalize_calls st).
Proof.
  intros Hsub (b & -> & Hb)%list_elem_of_fmap.
  rewrite !elem_of_cons. right. right.
  apply list_elem_of_fmap. exists b. split; [done|]. now apply Hsub.
Qed.

Lemma builder_prefix_allowed st (b : BuilderCall) :
  b ∈ builder_prefix -> b ∈ Finalize_calls st.
Proof. intros Hb. unfold Finalize_calls. apply elem_of_app. now left. Qed.

Ltac prefix_call :=
  intros ? ?; apply builder_prefix_allowed; unfold builder_prefix;
  repeat match goal with
         | H : _ ∈ [_] |- _ => apply list_elem_of_singleton in H; subst
         end;
  rewrite ?elem_of_cons, ?elem_of_app; tauto.

Ltac camera_call :=
  intros ? ?; unfold Finalize_calls; rewrite !elem_of_app; right; left;
  assumption.

Ltac suffix_call :=
  intros ? ?; unfold Finalize_calls; rewrite !elem_of_app; right; right;
  assumption.

Ltac allowed_call tac :=
  eapply refusal_mono; [|eassumption];
  let Hcall := fresh in
  intros ? Hcall; eapply Builder_allowed; [|exact Hcall]; tac.

Ltac library_call_allowed :=
  intros ? ->%list_elem_of_singleton; rewrite !elem_of_cons; tauto.

(** The builder part of [Finalize], from any station: it returns when every
    camera's parent body has a geometry frame and the library takes every
    call, and then the station is as it was with plant and scene graph
    moved out, the controller plant finalized and the diagram installed;
    when it throws, the plant has been moved out of the station. *)
Lemma build_diagram_post st :
  post (fun _ sb' =>
          (forall entry, entry ∈ in_key_order (camera_information_ st) ->
             is_Some (GetBodyFrameIdIfExists (plant_ st)
                        (frame_body_index (camera_parent_frame entry.2))))
          /\ sb' = (with_diagram (Finalize_calls st) (in_builder st),
                    Finalize_calls st))
       (fun e sb' =>
          owned_plant_ sb'.1 = false
          /\ (refusal (ControllerPlantFinalize :: BuildInto
                       :: (Builder <$> Finalize_calls st)) e
              \/ (e = ThrowUnless "parent_body_id.has_value()"
                  /\ (exists entry,
                        entry ∈ in_key_order (camera_information_ st)
                        /\ GetBodyFrameIdIfExists (plant_ st)
                             (frame_body_index (camera_parent_frame entry.2))
                           = None)
                  /\ sb'.1 = in_builder st)))
       (build_diagram (st, [])).
Proof.
  unfold build_diagram.
  set (s1 := with_plant (plant_ st) false (owned_scene_graph_ st) st).
  set (s2 := with_plant (plant_ s1) (owned_plant_ s1) false s1).
  apply post_bind with (Q1 := fun _ sb' => sb' = (s1, [])); [reflexivity|].
  intros _ ? ->.
  apply post_bind with (Q1 := fun _ sb' => sb' = (s1, [AddSystem "plant"])).
  { apply (post_weaken _ _ _ _ _ (builder_call_post _ _)); [done|].
    intros e s0 [Hc ->]. split; [reflexivity|left].
    allowed_call prefix_call. }
  intros _ ? ->.
  apply post_bind with (Q1 := fun _ sb' => sb' = (s2, [AddSystem "plant"]));
    [reflexivity|].
  intros _ ? ->.
  apply post_bind
    with (Q1 := fun _ sb' => sb' = (s2, [AddSystem "plant"; AddSystem "scene_graph"])).
  { apply (post_weaken _ _ _ _ _ (builder_call_post _ _)); [done|].
    intros e s0 [Hc ->]. split; [reflexivity|left].
    allowed_call prefix_call. }
  intros _ ? ->.
  apply post_bind
    with (Q1 := fun _ sb' =>
                  sb' = (s2, AddSystem "plant" :: AddSystem "scene_graph"
                             :: builder_plant_calls)).
  { apply (post_weaken _ _ _ _ _ (builder_calls_post _ _)); [done|].
    intros e s0 [Hc Hs]. split; [now rewrite Hs|left].
    allowed_call prefix_call. }
  intros _ ? ->.
  apply post_bind
    with (Q1 := fun _ sb' =>
                  sb' = (s2, AddSystem "plant" :: AddSystem "scene_graph"
                             :: builder_plant_calls)).
  { apply (post_weaken _ _ _ _ _ (library_call_post _ _)); [done|].
    intros e s0 [Hc ->]. split; [reflexivity|left].
    eapply refusal_mono; [|exact Hc]. library_call_allowed. }
  intros _ ? ->.
  apply post_bind
    with (Q1 := fun _ sb' =>
                  sb' = (in_builder st,
                         AddSystem "plant" :: AddSystem "scene_graph"
                         :: builder_plant_calls)); [reflexivity|].
  intros _ ? ->.
  apply post_bind with (Q1 := fun _ sb' => sb' = (in_builder st, builder_prefix)).
  { apply (post_weaken _ _ _ _ _ (builder_calls_post _ _)).
    - intros _ s0 ->. reflexivity.
    - intros e s0 [Hc Hs]. split; [now rewrite Hs|left].
      allowed_call prefix_call. }
  intros _ ? ->.
  apply post_bind with (Q1 := fun sb0 sb' => sb0 = sb' /\ sb' = (in_builder st, builder_prefix));
    [done|].
  intros ? ? [-> ->]. cbn [fst].
  apply post_bind
    with (Q1 := fun _ sb' =>
                  (forall entry, entry ∈ in_key_order (camera_information_ st) ->
                     is_Some (GetBodyFrameIdIfExists (plant_ st)
                                (frame_body_index (camera_parent_frame entry.2))))
                  /\ sb' = (in_builder st,
                            builder_prefix
                            ++ flat_map (camera_calls_of st)
                                 (in_key_order (camera_information_ st)))).
  { apply (post_weaken _ _ _ _ _ (add_cameras_post _ _)).
    - intros _ s0 [Hall ->]. split; [exact Hall|reflexivity].
    - intros e s0 [Hs Hcases]. split; [now rewrite Hs|].
      destruct Hcases as [Hc|[He Hex]]; [left|right; done].
      allowed_call camera_call. }
  intros _ ? [Hall ->].
  apply post_bind
    with (Q1 := fun _ sb' => sb' = (in_builder st, Finalize_calls st)).
  { apply (post_weaken _ _ _ _ _ (builder_calls_post _ _)).
    - intros _ s0 ->. cbn [fst snd]. unfold Finalize_calls.
      now rewrite <- app_assoc.
    - intros e s0 [Hc Hs]. split; [now rewrite Hs|left].
      allowed_call suffix_call. }
  intros _ ? ->.
  apply post_bind
    with (Q1 := fun _ sb' => sb' = (in_builder st, Finalize_calls st)).
  { apply (post_weaken _ _ _ _ _ (library_call_post _ _)); [done|].
    intros e s0 [Hc ->]. split; [reflexivity|left].
    eapply refusal_mono; [|exact Hc]. library_call_allowed. }
  intros _ ? ->. split; [exact Hall|reflexivity].
Qed.

(** When the builder part returns, the station holds the whole diagram. *)
Lemma with_builder_returns st st' :
  with_builder build_diagram st = Returns tt st' ->
  st' = with_diagram (Finalize_calls st) (in_builder st).
Proof.
  unfold with_builder. pose proof (build_diagram_post st) as Hpost.
  destruct (build_diagram (st, [])) as [[] [s b]|e [s b]]; [|discriminate].
  destruct Hpost as [_ [= -> ->]]. now intros [= <-].
Qed.

Lemma plant_Finalize_returns st st' :
  plant_Finalize st = Returns tt st' ->
  is_finalized (plant_ st') = true
  /\ GetBodyFrameIdIfExists (plant_ st') = GetBodyFrameIdIfExists (plant_ st).
Proof.
  unfold plant_Finalize, bind, get, modify.
  destruct (is_finalized (plant_ st)); simpl; [discriminate|].
  now intros [= <-].
Qed.

(** What a returned [Finalize] leaves, whatever went before its builder
    part: a finalized plant and a diagram that starts with the fixed
    calls. *)
Lemma Finalize_returns (parses : string -> bool) st st' :
  Finalize parses st = Returns tt st' ->
  is_finalized (plant_ st') = true
  /\ exists rest, diagram_ st' = Some (builder_prefix ++ rest).
Proof.
  unfold Finalize, bind, get.
  destruct (DRAKE_THROW_UNLESS _ _ st) as [[] s1|]; [|discriminate].
  destruct (DRAKE_THROW_UNLESS _ _ s1) as [[] s2|]; [|discriminate].
  destruct (MakeIiwaControllerModel parses s2) as [[] s3|]; [|discriminate].
  destruct (plant_Finalize s3) as [[] s4|] eqn:Hplant; [|discriminate].
  apply plant_Finalize_returns in Hplant as [Hfin _].
  intros ->%with_builder_returns. split; [exact Hfin|].
  eexists. reflexivity.
Qed.

Lemma builder_prefix_subsystems (extra rest : list BuilderCall) :
  let names := omap added_system ((builder_prefix ++ extra) ++ rest) in
  "plant" ∈ names /\ "wsg_controller" ∈ names.
Proof.
  cbv zeta. rewrite <- app_assoc, omap_app.
  split; apply elem_of_app; left; vm_compute; repeat constructor.
Qed.

(** A station that [Finalize] has built contains the plant and the gripper
    controller among its subsystems. *)
Lemma Finalize_subsystems (parses : string -> bool) st st' :
  Finalize parses st = Returns tt st' ->
  "plant" ∈ subsystem_names st' /\ "wsg_controller" ∈ subsystem_names st'.
Proof.
  intros [_ [rest Hd]]%Finalize_returns.
  unfold subsystem_names. rewrite Hd.
  rewrite <- (app_nil_r (builder_prefix ++ rest)).
  apply builder_prefix_subsystems.
Qed.

(** C10: the map returned by [GetStaticCameraPosesInWorld] has an entry
    under a name exactly when a camera is registered under that name with a
    parent frame on the world body, and the entry is then the parent
    frame's fixed pose in its body composed with the camera's [X_PC];
    registering a camera makes its entry appear, or not, by this rule, and
    leaves the entries under other names as they are. *)
Theorem GetStaticCameraPosesInWorld_correct st :
  (forall name : string,
     GetStaticCameraPosesInWorld st !! name
     = match camera_information_ st !! name with
       | Some info =>
           if frame_body_index (camera_parent_frame info)
              =? frame_body_index (world_frame (plant_ st))
           then Some (rt_mul (RigidTransform_of_Isometry3
                                (GetFixedPoseInBodyFrame (camera_parent_frame info)))
                             (camera_X_PC info))
           else None
       | None => None
       end)
  /\ (forall (name : string) (P : Frame) (X_PC : RigidTransform) (properties : nat),
        let st' := state_of (RegisterRgbdCamera name P X_PC properties st) in
        GetStaticCameraPosesInWorld st' !! name
        = (if frame_body_index P =? frame_body_index (world_frame (plant_ st))
           then Some (rt_mul (RigidTransform_of_Isometry3 (GetFixedPoseInBodyFrame P))
                             X_PC)
           else None)
        /\ forall other : string,
             other <> name ->
             GetStaticCameraPosesInWorld st' !! other
             = GetStaticCameraPosesInWorld st !! other).
Proof.
  assert (Hlookup : forall st0 name,
    GetStaticCameraPosesInWorld st0 !! name
    = match camera_information_ st0 !! name with
      | Some info =>
          if frame_body_index (camera_parent_frame info)
             =? frame_body_index (world_frame (plant_ st0))
          then Some (rt_mul (RigidTransform_of_Isometry3
                               (GetFixedPoseInBodyFrame (camera_parent_frame info)))
                            (camera_X_PC info))
          else None
      | None => None
      end).
  { intros st0. unfold GetStaticCameraPosesInWorld.
    apply (map_fold_weak_ind (fun r (m : gmap string CameraInformation) =>
      forall name, r !! name = match m !! name with
                               | Some info => _ | None => None end)).
    - intros name. now rewrite !lookup_empty.
    - intros i x m r Hnone IH name.
      assert (Hri : r !! i = None) by (now rewrite IH, Hnone).
      destruct (decide (i = name)) as [->|Hne].
      + rewrite lookup_insert_eq. cbv zeta.
        destruct (_ =? _); [|done].
        unfold emplace. rewrite Hri. now rewrite lookup_insert_eq.
      + rewrite (lookup_insert_ne m) by done. rewrite <- IH. cbv zeta.
        destruct (_ =? _); [|done].
        unfold emplace. rewrite Hri. now rewrite lookup_insert_ne. }
  split; [apply Hlookup|].
  intros name P X_PC properties st'. subst st'. split.
  - rewrite Hlookup. simpl. now rewrite lookup_insert_eq.
  - intros other Hne. rewrite !Hlookup. simpl.
    now rewrite lookup_insert_ne.
Qed.

End GripperAndCameras.

(** ** The station, run on the example *)

(** C5 as first stated, with "some entry is negative" as the third cause,
    fails on NaN: seven gains of which the first is NaN are refused by a
    station that is not finalized and holds seven gains, although no new
    gain is negative. *)
Lemma SetIiwaGains_nan_counterexample :
  throws (SetIiwaGains fresh_station nan_gains (iiwa_kp_ fresh_station)) = true
  /\ ~ (is_finalized (plant_ fresh_station) = true
        \/ length nan_gains <> length (iiwa_kp_ fresh_station)
        \/ exists g, g ∈ nan_gains /\ Double.negative g = true).
Proof.
  split; [reflexivity|].
  intros [Hfin|[Hlen|(g & Hin & Hneg)]].
  - discriminate.
  - now apply Hlen.
  - unfold nan_gains in Hin. simpl in Hin.
    repeat (apply elem_of_cons in Hin as [->|Hin]; [discriminate|]).
    inversion Hin.
Qed.

Lemma SetIiwaGains_correct_witness :
  state_of (SetIiwaGains fresh_station (replicate 7 (Double.of_Z 50))
              (iiwa_kp_ fresh_station))
  = replicate 7 (Double.of_Z 50)
  /\ state_of (SetIiwaGains fresh_station nan_gains (iiwa_kp_ fresh_station))
     = iiwa_kp_ fresh_station.
Proof.
  split.
  - apply (proj2 (proj2 (proj2
             (SetIiwaGains_correct fresh_station (replicate 7 (Double.of_Z 50))
                (iiwa_kp_ fresh_station))))).
    reflexivity.
  - apply (proj1 (proj2 (proj2
             (SetIiwaGains_correct fresh_station nan_gains
                (iiwa_kp_ fresh_station))))).
    reflexivity.
Defined.

Lemma Finalize_requires_models_witness :
  Finalize (fun _ => true) fresh_station
  = Throws (ThrowUnless "iiwa_model_.model_instance.is_valid()") fresh_station
  /\ diagram_ (state_of (Finalize (fun _ => true) fresh_station))
     = diagram_ fresh_station
  /\ is_finalized (plant_ (state_of (Finalize (fun _ => true) fresh_station)))
     = is_finalized (plant_ fresh_station).
Proof.
  apply (Finalize_requires_models (fun _ => true) fresh_station).
  left. reflexivity.
Defined.

(** [Finalize] succeeds on the example once both models are registered. *)
Example Finalize_example :
  Finalize (fun _ => true) registered_station = Returns tt built_station
  /\ get_camera_names built_station = ["0"; "wrist"].
Proof. split; vm_compute; reflexivity. Qed.

(** C8 as first stated fails on the smallest positive double: its half
    rounds to zero, so setting the opening to [2^-1074] and reading it back
    gives [+0]. *)
Lemma WsgPosition_denorm_min_counterexample :
  Double.valid Double.denorm_min = true
  /\ value_of (bind (SetWsgPosition built_station Double.denorm_min)
                    (fun _ => GetWsgPosition built_station)
                    example_station_context)
     = Some Double.zero
  /\ value_of (bind (SetWsgPosition built_station Double.denorm_min)
                    (fun _ => GetWsgPosition built_station)
                    example_station_context)
     <> Some Double.denorm_min.
Proof.
  split; [reflexivity|].
  assert (Hv : value_of (bind (SetWsgPosition built_station Double.denorm_min)
                              (fun _ => GetWsgPosition built_station)
                              example_station_context)
               = Some Double.zero) by (vm_compute; reflexivity).
  split; [exact Hv|]. rewrite Hv. discriminate.
Qed.

(** The same for the next odd multiple: [3 * 2^-1074] comes back as
    [4 * 2^-1074]. *)
Example WsgPosition_three_denorm_min :
  value_of (bind (SetWsgPosition built_station (S754_finite false 3 (-1074)))
                 (fun _ => GetWsgPosition built_station)
                 example_station_context)
  = Some (S754_finite false 4 (-1074)).
Proof. vm_compute; reflexivity. Qed.

Lemma WsgPosition_roundtrip_witness :
  exists (c' : StationContext) (r : double),
    SetWsgPosition built_station (Double.of_Z 100) example_station_context
    = Returns tt c'
    /\ GetWsgPosition built_station c' = Returns r c'
    /\ r = Double.sub (Double.div (Double.of_Z 100) (Double.of_Z 2))
                      (Double.div (Double.neg (Double.of_Z 100)) (Double.of_Z 2))
    /\ (r = Double.of_Z 100 <-> Double.halves_exactly (Double.of_Z 100) = true).
Proof.
  apply (WsgPosition_roundtrip built_station (Double.of_Z 100)
           example_station_context).
  - apply (Finalize_subsystems (fun _ => true) registered_station).
    vm_compute; reflexivity.
  - apply (Finalize_subsystems (fun _ => true) registered_station).
    vm_compute; reflexivity.
  - eexists. vm_compute; reflexivity.
  - eexists. vm_compute; reflexivity.
  - reflexivity.
Defined.

(** Read back on the example: an opening of 100 comes back as 100. *)
Example WsgPosition_hundred :
  value_of (bind (SetWsgPosition built_station (Double.of_Z 100))
                 (fun _ => GetWsgPosition built_station)
                 example_station_context)
  = Some (Double.of_Z 100).
Proof. vm_compute; reflexivity. Qed.

Lemma GetStaticCameraPosesInWorld_correct_witness :
  GetStaticCameraPosesInWorld registered_station !! "0" = Some 10%Z
  /\ GetStaticCameraPosesInWorld registered_station !! "wrist" = None.
Proof.
  split.
  - refine (eq_trans
              (proj1 (GetStaticCameraPosesInWorld_correct registered_station) "0") _).
    vm_compute; reflexivity.
  - refine (eq_trans
              (proj1 (GetStaticCameraPosesInWorld_correct registered_station) "wrist") _).
    vm_compute; reflexivity.
Defined.

(** * Part III: further properties of the code *)

(** ** The logistic system *)

Section LogisticMore.
Context {T E : Type} {scalar : Scalar T}.
Implicit Types (sys : LogisticSystem T E) (w : World T E) (c : Context T).

(** The world [DoCalcTimeDerivatives] leaves when both vectors have a
    component 0: only that component of the output is assigned. *)
Lemma DoCalcTimeDerivatives_returns sys c (d : loc) w (x o : T) (xs os : list T) :
  vectors w !! get_continuous_state c = Some (x :: xs) ->
  vectors w !! d = Some (o :: os) ->
  DoCalcTimeDerivatives sys c d w
  = Returns tt {| vectors := <[d := logistic_rhs sys x (get_time c) :: os]> (vectors w);
                  env := env w; calls := calls w |}.
Proof.
  intros Hx Hd. unfold DoCalcTimeDerivatives.
  rewrite (bind_returns _ _ w x w) by (now apply GetAtIndex_returns with (x :: xs)).
  unfold SetAtIndex. rewrite Hd. simpl. reflexivity.
Qed.

(** X1: with the output vector separate from the context's state,
    [DoCalcTimeDerivatives] assigns component 0 of the output and nothing
    else (further components of a longer output keep their values), and
    calling it again on the result changes nothing: the derivative does not
    depend on what the output held. *)
Theorem DoCalcTimeDerivatives_repeatable sys c (d : loc) w (x o : T)
    (xs os : list T) :
  vectors w !! get_continuous_state c = Some (x :: xs) ->
  vectors w !! d = Some (o :: os) ->
  d <> get_continuous_state c ->
  exists w1 : World T E,
    DoCalcTimeDerivatives sys c d w = Returns tt w1
    /\ vectors w1 !! d = Some (logistic_rhs sys x (get_time c) :: os)
    /\ vectors w1 !! get_continuous_state c = Some (x :: xs)
    /\ DoCalcTimeDerivatives sys c d w1 = Returns tt w1.
Proof.
  intros Hx Hd Hne.
  set (w1 := {| vectors := <[d := logistic_rhs sys x (get_time c) :: os]> (vectors w);
                env := env w; calls := calls w |}).
  assert (Hd1 : vectors w1 !! d = Some (logistic_rhs sys x (get_time c) :: os))
    by apply lookup_insert_eq.
  assert (Hx1 : vectors w1 !! get_continuous_state c = Some (x :: xs))
    by (simpl; now rewrite lookup_insert_ne).
  exists w1.
  split; [exact (DoCalcTimeDerivatives_returns sys c d w x o xs os Hx Hd)|].
  repeat split; [exact Hd1|exact Hx1|].
  rewrite (DoCalcTimeDerivatives_returns sys c d w1 x
             (logistic_rhs sys x (get_time c)) xs os Hx1 Hd1).
  unfold w1. simpl. now rewrite insert_insert_eq.
Qed.

(** X2: when the caller hands the context's own state vector as the
    output, the state's component 0 is overwritten by the derivative: the
    witness function then evaluates to the derivative, and a second call
    computes from the overwritten state. *)
Theorem DoCalcTimeDerivatives_in_place sys (wf : LogisticWitness) c w (x : T)
    (xs : list T) :
  vectors w !! get_continuous_state c = Some (x :: xs) ->
  let dx := logistic_rhs sys x (get_time c) in
  exists w1 w2 : World T E,
    DoCalcTimeDerivatives sys c (get_continuous_state c) w = Returns tt w1
    /\ vectors w1 !! get_continuous_state c = Some (dx :: xs)
    /\ DoEvaluate wf c w1 = Returns dx w1
    /\ DoCalcTimeDerivatives sys c (get_continuous_state c) w1 = Returns tt w2
    /\ vectors w2 !! get_continuous_state c
       = Some (logistic_rhs sys dx (get_time c) :: xs).
Proof.
  intros Hx dx.
  set (w1 := {| vectors := <[get_continuous_state c := dx :: xs]> (vectors w);
                env := env w; calls := calls w |}).
  assert (H1 : vectors w1 !! get_continuous_state c = Some (dx :: xs))
    by apply lookup_insert_eq.
  exists w1. eexists.
  split; [exact (DoCalcTimeDerivatives_returns sys c _ w x x xs xs Hx Hx)|].
  split; [exact H1|]. split.
  { unfold DoEvaluate. now apply GetAtIndex_returns with (dx :: xs). }
  split.
  { exact (DoCalcTimeDerivatives_returns sys c _ w1 dx dx xs xs H1 H1). }
  simpl. apply lookup_insert_eq.
Qed.

(** [set_publish_callback] replaces the stored callback and touches
    nothing else: after two calls only the second callback is invoked by
    [DoPublish], setting an empty function makes [DoPublish] do nothing
    again, and the witness functions, the declared state size and the
    derivative are those of the system before. *)
Remark set_publish_callback_replaces sys (first second : option (Callback T E))
    c (d : loc) w :
  let sys' := set_publish_callback second (set_publish_callback first sys) in
  DoPublish sys' c w
  = match second with
    | Some callback => invoke callback c w
    | None => Returns tt w
    end
  /\ get_witness_functions sys' c = get_witness_functions sys c
  /\ continuous_state_size sys' = continuous_state_size sys
  /\ DoCalcTimeDerivatives sys' c d w = DoCalcTimeDerivatives sys c d w.
Proof.
  cbv zeta. repeat split. unfold DoPublish. simpl. now destruct second.
Qed.

Lemma DoPublish_vectors sys c w :
  vectors (state_of (DoPublish sys c w)) = vectors w.
Proof.
  unfold DoPublish. destruct (publish_callback_ sys); [|done].
  apply invoke_vectors.
Qed.

Lemma DoPublish_calls sys c w :
  calls (state_of (DoPublish sys c w))
  = calls w ++ (if publish_callback_ sys is Some _ then [c] else []).
Proof.
  unfold DoPublish. destruct (publish_callback_ sys); simpl.
  - apply invoke_calls.
  - now rewrite app_nil_r.
Qed.

Lemma publish_each_app sys (before after : list (Context T)) w :
  publish_each sys (before ++ after) w
  = bind (publish_each sys before) (fun _ => publish_each sys after) w.
Proof. apply for_each_app. Qed.

(** A run of publications that returns has invoked the callback on each
    context, in order. *)
Lemma publish_each_returns sys (callback : Callback T E)
    (contexts : list (Context T)) w w' :
  publish_callback_ sys = Some callback ->
  publish_each sys contexts w = Returns tt w' ->
  calls w' = calls w ++ contexts.
Proof.
  intros Hcb. unfold publish_each.
  revert w. induction contexts as [|c cs IH]; intros w.
  - intros [= <-]. now rewrite app_nil_r.
  - change (for_each (DoPublish sys) (c :: cs))
      with (bind (DoPublish sys c) (fun _ => for_each (DoPublish sys) cs)).
    pose proof (DoPublish_calls sys c w) as Hc. rewrite Hcb in Hc.
    unfold bind. destruct (DoPublish sys c w) as [[] w1|e w1]; [|discriminate].
    intros Hrest. rewrite (IH w1 Hrest). simpl in Hc.
    now rewrite Hc, <- app_assoc.
Qed.

(** A run of publications that throws has a first invocation that threw. *)
Lemma publish_each_throws sys (callback : Callback T E)
    (contexts : list (Context T)) w e w' :
  publish_callback_ sys = Some callback ->
  publish_each sys contexts w = Throws e w' ->
  exists before c after w1,
    contexts = before ++ c :: after
    /\ publish_each sys before w = Returns tt w1
    /\ invoke callback c w1 = Throws e w'.
Proof.
  intros Hcb. unfold publish_each.
  revert w. induction contexts as [|c cs IH]; intros w; [discriminate|].
  change (for_each (DoPublish sys) (c :: cs))
    with (bind (DoPublish sys c) (fun _ => for_each (DoPublish sys) cs)).
  unfold bind. destruct (DoPublish sys c w) as [[] w1|e1 w1] eqn:Hone.
  - intros Hrest. destruct (IH w1 Hrest) as (before & c' & after & w2 & -> & Hb & Hc).
    exists (c :: before), c', after, w2. split; [done|]. split; [|done].
    change (for_each (DoPublish sys) (c :: before))
      with (bind (DoPublish sys c) (fun _ => for_each (DoPublish sys) before)).
    unfold bind. now rewrite Hone.
  - intros [= -> ->]. exists [], c, cs, w. split; [done|]. split; [done|].
    unfold DoPublish in Hone. now rewrite Hcb in Hone.
Qed.

(** X3: publishing on a list of contexts with a callback stored invokes the
    callback on one context after the other, each invocation starting from
    the state the one before left, and stops at the first invocation that
    throws.  On no context the run returns with nothing changed; when the
    run on the contexts but the last returns and the invocation on the last
    returns, the run returns with the state this invocation left.  A run
    that returns has invoked the callback once on each context, in order.
    When the invocations on the contexts before some context return and the
    invocation on that context throws, the run throws this exception from
    the state that invocation left, in which the callback has been invoked
    on those contexts and on no later one; and a run that throws has such a
    first invocation. *)
Theorem publish_each_trace sys (callback : Callback T E)
    (contexts : list (Context T)) w :
  publish_callback_ sys = Some callback ->
  let r := publish_each sys contexts w in
  (contexts = [] -> r = Returns tt w)
  /\ (forall before c w1 w2,
        contexts = before ++ [c] ->
        publish_each sys before w = Returns tt w1 ->
        invoke callback c w1 = Returns tt w2 ->
        r = Returns tt w2)
  /\ (throws r = false -> calls (state_of r) = calls w ++ contexts)
  /\ (forall before c after w1 e w2,
        contexts = before ++ c :: after ->
        publish_each sys before w = Returns tt w1 ->
        invoke callback c w1 = Throws e w2 ->
        r = Throws e w2 /\ calls w2 = calls w ++ before ++ [c])
  /\ (throws r = true ->
        exists before c after w1 e,
          contexts = before ++ c :: after
          /\ publish_each sys before w = Returns tt w1
          /\ invoke callback c w1 = Throws e (state_of r)
          /\ raised r = Some e).
Proof.
  intros Hcb. cbv zeta. split; [|split; [|split; [|split]]].
  - now intros ->.
  - intros before c w1 w2 -> Hbefore Hreturn.
    rewrite publish_each_app. unfold bind at 1. rewrite Hbefore.
    unfold publish_each.
    change (for_each (DoPublish sys) [c])
      with (bind (DoPublish sys c) (fun _ => ret tt)).
    unfold bind, DoPublish. now rewrite Hcb, Hreturn.
  - destruct (publish_each sys contexts w) as [[] w'|e w'] eqn:Hr; [|discriminate].
    intros _. exact (publish_each_returns sys callback contexts w w' Hcb Hr).
  - intros before c after w1 e w2 -> Hbefore Hthrow. split.
    + rewrite publish_each_app. unfold bind at 1. rewrite Hbefore.
      unfold publish_each.
      change (for_each (DoPublish sys) (c :: after))
        with (bind (DoPublish sys c) (fun _ => for_each (DoPublish sys) after)).
      unfold bind, DoPublish. now rewrite Hcb, Hthrow.
    + pose proof (invoke_calls callback c w1) as Hc. rewrite Hthrow in Hc.
      simpl in Hc. rewrite Hc.
      rewrite (publish_each_returns sys callback before w w1 Hcb Hbefore).
      now rewrite <- app_assoc.
  - destruct (publish_each sys contexts w) as [[] w'|e w'] eqn:Hr; [discriminate|].
    intros _.
    destruct (publish_each_throws sys callback contexts w e w' Hcb Hr)
      as (before & c & after & w1 & Hl & Hb & Hc).
    exists before, c, after, w1, e. done.
Qed.

End LogisticMore.

(** ** The station: gains and registration *)

Section StationMore.
Context {poses : Poses} {plant_api : PlantApi} {wsg_api : WsgControllerApi}
        {files : ModelFilesApi} {library : LibraryApi}.
Implicit Types (st : ManipulationStation).

(** X4: [SetWsgGains] throws exactly when the plant is finalized or one of
    the two gains is negative or NaN, and then leaves the station as it
    was; otherwise the station is as before in every member but the two
    gripper gains, which are the new ones. *)
Theorem SetWsgGains_correct st (kp kd : double) :
  let r := SetWsgGains kp kd st in
  (throws r = true <->
     is_finalized (plant_ st) = true
     \/ Double.negative kp = true \/ Double.is_nan kp = true
     \/ Double.negative kd = true \/ Double.is_nan kd = true)
  /\ (throws r = true -> state_of r = st)
  /\ (throws r = false ->
        state_of r
        = {| plant_ := plant_ st;
             owned_plant_ := owned_plant_ st;
             owned_scene_graph_ := owned_scene_graph_ st;
             owned_controller_plant_ := owned_controller_plant_ st;
             iiwa_kp_ := iiwa_kp_ st;
             iiwa_ki_ := iiwa_ki_ st;
             iiwa_kd_ := iiwa_kd_ st;
             wsg_kp_ := kp;
             wsg_kd_ := kd;
             iiwa_model_ := iiwa_model_ st;
             wsg_model_ := wsg_model_ st;
             camera_information_ := camera_information_ st;
             diagram_ := diagram_ st;
             plant_destroyed_ := plant_destroyed_ st |}).
Proof.
  cbv zeta. unfold SetWsgGains, bind, get, modify.
  pose proof (geb_zero_false kp) as Hkp. pose proof (geb_zero_false kd) as Hkd.
  destruct (is_finalized (plant_ st)); simpl;
    [repeat split; auto; discriminate|].
  destruct (Double.geb kp Double.zero); simpl.
  - destruct (Double.geb kd Double.zero); simpl.
    + repeat split; try discriminate.
      intros [?|[?|[?|Hd]]]; try discriminate.
      * assert (false = true) by (destruct Hkp as [_ Hk]; symmetry; apply Hk; now left).
        discriminate.
      * assert (false = true) by (destruct Hkp as [_ Hk]; symmetry; apply Hk; now right).
        discriminate.
      * destruct Hkd as [_ Hk]. symmetry. apply Hk. tauto.
    + repeat split; try discriminate; auto.
      intros _. destruct Hkd as [Hk _]. destruct (Hk eq_refl); tauto.
  - repeat split; try discriminate; auto.
    intros _. destruct Hkp as [Hk _]. destruct (Hk eq_refl); tauto.
Qed.



(** X6: [RegisterIiwaControllerModel] compares the parent frame with the
    world frame by name only.  It throws exactly when the names differ, and
    then leaves the station as it was; otherwise the station is as before
    in every member but the iiwa model, which holds the five arguments,
    whatever the index (an invalid one included) and whatever body the
    frame is on. *)
Theorem RegisterIiwaControllerModel_correct st (path : string)
    (instance : ModelInstanceIndex) (parent child : Frame) (X_PC : RigidTransform) :
  let r := RegisterIiwaControllerModel path instance parent child X_PC st in
  (throws r = true <-> frame_name parent <> frame_name (world_frame (plant_ st)))
  /\ (throws r = true -> state_of r = st)
  /\ (throws r = false ->
        state_of r
        = {| plant_ := plant_ st;
             owned_plant_ := owned_plant_ st;
             owned_scene_graph_ := owned_scene_graph_ st;
             owned_controller_plant_ := owned_controller_plant_ st;
             iiwa_kp_ := iiwa_kp_ st;
             iiwa_ki_ := iiwa_ki_ st;
             iiwa_kd_ := iiwa_kd_ st;
             wsg_kp_ := wsg_kp_ st;
             wsg_kd_ := wsg_kd_ st;
             iiwa_model_ :=
               {| model_path := path; model_parent_frame := Some parent;
                  model_child_frame := Some child; model_X_PC := X_PC;
                  model_instance := instance |};
             wsg_model_ := wsg_model_ st;
             camera_information_ := camera_information_ st;
             diagram_ := diagram_ st;
             plant_destroyed_ := plant_destroyed_ st |}).
Proof.
  cbv zeta. unfold RegisterIiwaControllerModel, bind, get, modify.
  destruct (decide (frame_name parent = frame_name (world_frame (plant_ st))))
    as [Heq|Hne].
  - rewrite bool_decide_eq_true_2 by done. simpl.
    repeat split; try discriminate; auto; try congruence.
  - rewrite bool_decide_eq_false_2 by done. simpl.
    repeat split; try discriminate; auto.
Qed.

(** X7: registration does not look at the model instance index.
    [RegisterWsgControllerModel] always returns, with any parent frame and
    any index; the last registration replaces the one before and leaves the
    iiwa model alone; and when the index registered last is invalid it is
    [Finalize] that throws, from the station as registration left it. *)
Theorem RegisterWsgControllerModel_unchecked (parses : string -> bool) st
    (path1 path2 : string) (i1 i2 : ModelInstanceIndex)
    (parent1 child1 parent2 child2 : Frame) (X1 X2 : RigidTransform) :
  let r1 := RegisterWsgControllerModel path1 i1 parent1 child1 X1 st in
  let r2 := RegisterWsgControllerModel path2 i2 parent2 child2 X2 (state_of r1) in
  throws r1 = false /\ throws r2 = false
  /\ wsg_model_ (state_of r2)
     = {| model_path := path2; model_parent_frame := Some parent2;
          model_child_frame := Some child2; model_X_PC := X2;
          model_instance := i2 |}
  /\ iiwa_model_ (state_of r2) = iiwa_model_ st
  /\ (is_valid (model_instance (iiwa_model_ st)) = true ->
      is_valid i2 = false ->
      Finalize parses (state_of r2)
      = Throws (ThrowUnless "wsg_model_.model_instance.is_valid()") (state_of r2)).
Proof.
  cbv zeta. unfold RegisterWsgControllerModel, modify. simpl.
  repeat split. intros Hi Hw.
  unfold Finalize, bind, get. simpl. now rewrite Hi, Hw.
Qed.

End StationMore.

(** ** The station: [Finalize] and the cameras *)

Section FinalizeMore.
Context {poses : Poses} {plant_api : PlantApi} {wsg_api : WsgControllerApi}
        {files : ModelFilesApi} {library : LibraryApi}.
Implicit Types (st : ManipulationStation).

#[local] Instance key_order_total {V} :
  Total (fun a b : string * V => Is_true (String.leb a.1 b.1)).
Proof.
  intros a b. destruct (String.leb_total a.1 b.1) as [H|H]; rewrite H; simpl; auto.
Qed.







(** A station [Finalize] has returned from has a finalized plant. *)
Lemma Finalize_finalizes (parses : string -> bool) st st' :
  Finalize parses st = Returns tt st' -> is_finalized (plant_ st') = true.
Proof. now intros [Hfin _]%Finalize_returns. Qed.

(** X10: once [Finalize] has returned, the gains are frozen: every call of
    [SetWsgGains] and of [SetIiwaGains] throws, whatever the gains, and
    leaves the stored gains as the diagram was built with them. *)
Theorem gains_frozen_after_Finalize (parses : string -> bool) st st'
    (kp kd : double) (new_gains gains : VectorXd) :
  Finalize parses st = Returns tt st' ->
  SetWsgGains kp kd st' = Throws (ThrowUnless "!plant_->is_finalized()") st'
  /\ SetIiwaGains st' new_gains gains
     = Throws (ThrowUnless "!plant_->is_finalized()") gains.
Proof.
  intros Hfin%Finalize_finalizes.
  unfold SetWsgGains, SetIiwaGains, bind, get. now rewrite Hfin.
Qed.

(** X11: [get_camera_names] lists the names cameras are registered under,
    each once and in the order of the names.  [RegisterRgbdCamera] stores
    its arguments under the name, replacing what was stored there, and
    leaves the entries under other names alone: the name is added to the
    list if it is new, and the list is as long as before otherwise. *)
Theorem get_camera_names_correct st :
  NoDup (get_camera_names st)
  /\ Sorted (fun a b => Is_true (String.leb a b)) (get_camera_names st)
  /\ length (get_camera_names st) = size (camera_information_ st)
  /\ (forall name,
        name ∈ get_camera_names st <-> is_Some (camera_information_ st !! name))
  /\ (forall (name : string) (P : Frame) (X_PC : RigidTransform) (properties : nat),
        let st' := state_of (RegisterRgbdCamera name P X_PC properties st) in
        camera_information_ st' !! name
        = Some {| camera_parent_frame := P; camera_X_PC := X_PC;
                  camera_properties := properties |}
        /\ (forall other, other <> name ->
              camera_information_ st' !! other = camera_information_ st !! other)
        /\ (forall other,
              other ∈ get_camera_names st' <->
              other = name \/ other ∈ get_camera_names st)
        /\ (name ∈ get_camera_names st ->
            length (get_camera_names st') = length (get_camera_names st))
        /\ (name ∉ get_camera_names st ->
            length (get_camera_names st') = S (length (get_camera_names st)))).
Proof.
  assert (Hperm : forall st0, get_camera_names st0
                    ≡ₚ (map_to_list (camera_information_ st0)).*1).
  { intros st0. unfold get_camera_names, in_key_order.
    now rewrite merge_sort_Permutation. }
  assert (Hmem : forall st0 name,
            name ∈ get_camera_names st0
            <-> is_Some (camera_information_ st0 !! name)).
  { intros st0 name. rewrite Hperm, list_elem_of_fmap. split.
    - intros ([n info] & -> & Hin). apply elem_of_map_to_list in Hin. eauto.
    - intros [info Hin]. exists (name, info). split; [done|].
      now apply elem_of_map_to_list. }
  assert (Hlen : forall st0, length (get_camera_names st0)
                             = size (camera_information_ st0)).
  { intros st0. rewrite Hperm, length_fmap. apply length_map_to_list. }
  split; [rewrite Hperm; apply NoDup_fst_map_to_list|].
  split.
  { unfold get_camera_names, in_key_order.
    apply (Sorted_fmap fst (fun a b : string * CameraInformation =>
                              Is_true (String.leb a.1 b.1))); [done|].
    apply Sorted_merge_sort. apply key_order_total. }
  split; [apply Hlen|]. split; [apply Hmem|].
  intros name P X_PC properties st'. subst st'.
  split; [simpl; apply lookup_insert_eq|].
  split; [intros other Hne; simpl; now apply lookup_insert_ne|].
  split; [|split].
  - intros other. rewrite !Hmem. simpl.
    destruct (decide (other = name)) as [->|Hne].
    + rewrite lookup_insert_eq. split; eauto.
    + rewrite lookup_insert_ne by done. split; [now right|].
      intros [?|?]; [congruence|done].
  - intros Hin. apply Hmem in Hin as [info Hin]. rewrite !Hlen. simpl.
    apply map_size_insert_Some. eauto.
  - intros Hnot. rewrite !Hlen. simpl. apply map_size_insert_None.
    destruct (camera_information_ st !! name) as [info|] eqn:Hl; [|done].
    exfalso. apply Hnot, Hmem. eauto.
Qed.

End FinalizeMore.

(** ** Loops that return *)

Lemma for_each_returns {S B} (f : B -> M S unit) (g : S -> B -> S)
    (l : list B) (s : S) :
  (forall b s', b ∈ l -> f b s' = Returns tt (g s' b)) ->
  for_each f l s = Returns tt (foldl g s l).
Proof.
  revert s. induction l as [|b l IH]; intros s Hf; [done|].
  change (for_each f (b :: l)) with (bind (f b) (fun _ => for_each f l)).
  rewrite (bind_returns _ _ s tt (g s b)) by (apply Hf; constructor).
  simpl. apply IH. intros b' s' Hb'. apply Hf. now constructor.
Qed.

Lemma map_each_returns {S A B} (f : A -> M S B) (h : S -> A -> B)
    (l : list A) (s : S) :
  (forall a, a ∈ l -> f a s = Returns (h s a) s) ->
  map_each f l s = Returns (map (h s) l) s.
Proof.
  induction l as [|a l IH]; intros Hf; [done|].
  change (map_each f (a :: l))
    with (bind (f a) (fun b => bind (map_each f l) (fun bs => ret (b :: bs)))).
  rewrite (bind_returns _ _ s (h s a) s) by (apply Hf; constructor).
  rewrite (bind_returns _ _ s (map (h s) l) s); [done|].
  apply IH. intros a' Ha'. apply Hf. now constructor.
Qed.

(** ** Components written one after the other *)

Section Components.
Context {C J : Type} (read : J -> C -> double) (set : J -> C -> double -> C).
Hypothesis read_set : forall j c x, read j (set j c x) = x.
Hypothesis read_set_other : forall j j' c x,
  j <> j' -> read j' (set j c x) = read j' c.
Variables (joint : nat -> option J) (value : nat -> double).

(** After the writes, each component written holds its value, provided
    the indices name different components. *)
Lemma get_set_all (indices : list nat) (c : C) (k : nat) (j : J) :
  (forall i i' j', i ∈ indices -> i' ∈ indices ->
                   joint i = Some j' -> joint i' = Some j' -> i = i') ->
  k ∈ indices -> joint k = Some j ->
  read j (set_all set joint value indices c) = value k.
Proof using read_set read_set_other.
  unfold set_all.
  induction indices as [|i l IH] using rev_ind; intros Hinj Hk Hj.
  - inversion Hk.
  - rewrite foldl_snoc.
    destruct (decide (k = i)) as [->|Hne].
    { unfold set_at at 1. rewrite Hj. apply read_set. }
    assert (Hkl : k ∈ l).
    { apply elem_of_app in Hk as [Hk|Hk]; [done|].
      apply list_elem_of_singleton in Hk. congruence. }
    assert (IH' : read j (foldl (set_at set joint value) c l) = value k).
    { apply IH; [|done|done].
      intros a b j' Ha Hb. apply Hinj; apply elem_of_app; now left. }
    unfold set_at at 1. destruct (joint i) as [ji|] eqn:Hji; [|exact IH'].
    rewrite read_set_other; [exact IH'|].
    intros ->. apply Hne. apply (Hinj k i j); [| |done|done].
    + apply elem_of_app. now left.
    + apply elem_of_app. right. constructor.
Qed.

(** What no write changes is as before. *)
Lemma set_all_frame {V} (observe_ : C -> V) (indices : list nat) (c : C) :
  (forall j c x, observe_ (set j c x) = observe_ c) ->
  observe_ (set_all set joint value indices c) = observe_ c.
Proof using Type.
  intros Hframe. unfold set_all.
  induction indices as [|i l IH] using rev_ind; [done|].
  rewrite foldl_snoc. unfold set_at at 1.
  destruct (joint i); [now rewrite Hframe|done].
Qed.

End Components.

Lemma coeff_all (q : VectorXd) :
  map (coeff q) (seq 0 (length q)) = q.
Proof.
  apply list_eq. intros i. rewrite list_lookup_fmap.
  destruct (q !! i) as [x|] eqn:Hx.
  - rewrite lookup_seq_lt by (now apply lookup_lt_Some with x).
    simpl. unfold coeff. now rewrite Hx.
  - apply lookup_ge_None in Hx.
    assert (Hs : seq 0 (length q) !! i = None)
      by (apply lookup_ge_None; rewrite length_seq; lia).
    rewrite Hs. symmetry. now apply lookup_ge_None.
Qed.

(** The seven joint names of the arm are different. *)
Lemma iiwa_joint_name_inj (i i' : nat) :
  iiwa_joint_name i = iiwa_joint_name i' -> i = i'.
Proof.
  unfold iiwa_joint_name. intros H.
  apply (inj (String.append "iiwa_joint_")) in H.
  apply (inj pretty) in H. lia.
Qed.

(** A loop whose body throws stops there, with the passes before it
    made. *)
Lemma for_each_throws {S B} (f : B -> M S unit) (g : S -> B -> S)
    (before : list B) (b : B) (rest : list B) (s : S) e s' :
  (forall a s0, a ∈ before -> f a s0 = Returns tt (g s0 a)) ->
  f b (foldl g s before) = Throws e s' ->
  for_each f (before ++ b :: rest) s = Throws e s'.
Proof.
  revert s. induction before as [|a l IH]; intros s Hf Hb.
  - change (for_each f ([] ++ b :: rest))
      with (bind (f b) (fun _ => for_each f rest)).
    now rewrite (bind_throws _ _ s e s').
  - change (for_each f ((a :: l) ++ b :: rest))
      with (bind (f a) (fun _ => for_each f (l ++ b :: rest))).
    rewrite (bind_returns _ _ s tt (g s a)) by (apply Hf; constructor).
    apply IH; [|exact Hb]. intros a' s0 Ha'. apply Hf. now constructor.
Qed.

(** ** The arm and the joint rates *)

Section ArmMore.
Context {poses : Poses} {plant_api : PlantApi} {wsg_api : WsgControllerApi}
        {arm_api : ArmApi} {interpolator_api : InterpolatorApi}.

Lemma iiwa_joint_inj (i i' : nat) (j : RevoluteJoint) :
  iiwa_joint i = Some j -> iiwa_joint i' = Some j -> i = i'.
Proof.
  unfold iiwa_joint. intros Hi Hi'.
  apply iiwa_joint_name_inj. exact (GetRevoluteJointByName_inj _ _ _ Hi Hi').
Qed.

Lemma with_plant_context_foldl (step : PlantContext -> nat -> PlantContext)
    (l : list nat) (c : StationContext) :
  foldl (fun c i => with_plant_context (fun pc => step pc i) c) c l
  = with_plant_context (fun pc => foldl step pc l) c.
Proof.
  revert c. induction l as [|i l IH]; intros c; [now destruct c|].
  simpl. now rewrite IH.
Qed.

(** The loop of a setter over joints of the arm that all exist. *)
Lemma write_joints_returns
    (set : RevoluteJoint -> PlantContext -> double -> PlantContext)
    (value : nat -> double) (indices : list nat) (c : StationContext) :
  (forall i, i ∈ indices -> is_Some (iiwa_joint i)) ->
  for_each (fun i =>
              joint <- FindRevoluteJoint (iiwa_joint_name i) ;;
              modify (with_plant_context
                        (fun pc => set joint pc (value i))))
           indices c
  = Returns tt (with_plant_context (set_all set iiwa_joint value indices) c).
Proof.
  intros Hall.
  rewrite (for_each_returns _
             (fun c i => with_plant_context
                           (fun pc => set_at set iiwa_joint value pc i) c)).
  - now rewrite (with_plant_context_foldl (set_at set iiwa_joint value)).
  - intros i s Hi. destruct (Hall i Hi) as [j Hj].
    unfold bind, FindRevoluteJoint, modify, set_at.
    unfold iiwa_joint in *. now rewrite Hj.
Qed.

(** One pass of the loop of [SetIiwaPosition], as a function. *)
Lemma write_angles_foldl (q : VectorXd) (l : list nat) (c : ArmStationContext) :
  foldl (fun c i =>
           {| station_context :=
                with_plant_context
                  (fun pc => set_at set_angle iiwa_joint (coeff q) pc i)
                  (station_context c);
              interpolator_context := interpolator_context c |}) c l
  = {| station_context :=
         with_plant_context (set_all set_angle iiwa_joint (coeff q) l)
                            (station_context c);
       interpolator_context := interpolator_context c |}.
Proof.
  revert c. induction l as [|i l IH]; intros c.
  - destruct c as [[pc wc] ic]. reflexivity.
  - simpl. now rewrite IH.
Qed.

Lemma write_angle_returns (q : VectorXd) (i : nat) (c : ArmStationContext) :
  is_Some (iiwa_joint i) ->
  (joint <- FindRevoluteJoint (iiwa_joint_name i) ;;
   modify (fun c =>
             {| station_context :=
                  with_plant_context
                    (fun pc => set_angle joint pc (coeff q i))
                    (station_context c);
                interpolator_context := interpolator_context c |})) c
  = Returns tt
      {| station_context :=
           with_plant_context
             (fun pc => set_at set_angle iiwa_joint (coeff q) pc i)
             (station_context c);
         interpolator_context := interpolator_context c |}.
Proof.
  intros [j Hj]. unfold bind, FindRevoluteJoint, modify, set_at.
  unfold iiwa_joint in *. now rewrite Hj.
Qed.

(** The loop of a getter over joints of the arm that all exist. *)
Lemma read_joints_returns (read : RevoluteJoint -> PlantContext -> double)
    (indices : list nat) (c : StationContext) :
  (forall i, i ∈ indices -> is_Some (iiwa_joint i)) ->
  map_each (fun i =>
              joint <- FindRevoluteJoint (iiwa_joint_name i) ;;
              c <- get ;;
              ret (read joint (plant_context c)))
           indices c
  = Returns (map (fun i => from_option (fun j => read j (plant_context c))
                                       Double.zero (iiwa_joint i))
                 indices) c.
Proof.
  intros Hall.
  apply (map_each_returns _
           (fun c i => from_option (fun j => read j (plant_context c))
                                   Double.zero (iiwa_joint i))).
  intros i Hi. destruct (Hall i Hi) as [j Hj].
  unfold bind, FindRevoluteJoint, get, ret.
  unfold iiwa_joint in *. now rewrite Hj.
Qed.

(** Reading the joints after writing them gives the values written. *)
Lemma read_after_write (read : RevoluteJoint -> PlantContext -> double)
    (set : RevoluteJoint -> PlantContext -> double -> PlantContext)
    (x : VectorXd) (pc : PlantContext) :
  (forall j c x, read j (set j c x) = x) ->
  (forall j j' c x, j <> j' -> read j' (set j c x) = read j' c) ->
  (forall i, i < length x -> is_Some (iiwa_joint i)) ->
  map (fun i => from_option
                  (fun j => read j (set_all set iiwa_joint (coeff x)
                                            (seq 0 (length x)) pc))
                  Double.zero (iiwa_joint i))
      (seq 0 (length x))
  = x.
Proof.
  intros Hrs Hrso Hall.
  transitivity (map (coeff x) (seq 0 (length x))); [|apply coeff_all].
  apply map_ext_in. intros i Hi. apply in_seq in Hi.
  destruct (Hall i) as [j Hj]; [lia|]. rewrite Hj. simpl.
  apply (get_set_all read set Hrs Hrso); [|apply elem_of_seq; lia|done].
  intros a b j' _ _. apply iiwa_joint_inj.
Qed.

(** Reading joints that all exist depends on the coordinates read only. *)
Lemma read_joints_ext (read : RevoluteJoint -> PlantContext -> double)
    (indices : list nat) (pc pc' : PlantContext) :
  (forall j, read j pc' = read j pc) ->
  map (fun i => from_option (fun j => read j pc') Double.zero (iiwa_joint i))
      indices
  = map (fun i => from_option (fun j => read j pc) Double.zero (iiwa_joint i))
        indices.
Proof.
  intros Hsame. apply map_ext. intros i.
  destruct (iiwa_joint i); simpl; [apply Hsame|done].
Qed.

Lemma SetIiwaPosition_returns st (q : VectorXd) (c : ArmStationContext) :
  "plant" ∈ subsystem_names st ->
  "desired_state_from_position" ∈ subsystem_names st ->
  (forall i, i < kNumDofIiwa -> is_Some (iiwa_joint i)) ->
  length q = kNumDofIiwa ->
  SetIiwaPosition st q c
  = Returns tt
      {| station_context :=
           with_plant_context
             (set_all set_angle iiwa_joint (coeff q) (seq 0 kNumDofIiwa))
             (station_context c);
         interpolator_context :=
           set_initial_positions (interpolator_context c) q |}.
Proof.
  intros Hplant Hinterp Hall Hlen.
  unfold SetIiwaPosition, DRAKE_DEMAND, GetSubsystemByName.
  rewrite Hlen, Nat.eqb_refl, !bool_decide_eq_true_2 by done.
  change (bind (ret tt) ?k c) with (k tt c). cbv beta.
  change (bind (ret tt) ?k c) with (k tt c). cbv beta.
  erewrite bind_returns; cycle 1.
  { rewrite (for_each_returns _
               (fun c i =>
                  {| station_context :=
                       with_plant_context
                         (fun pc => set_at set_angle iiwa_joint (coeff q) pc i)
                         (station_context c);
                     interpolator_context := interpolator_context c |})).
    - rewrite write_angles_foldl. reflexivity.
    - intros i s Hi. apply write_angle_returns, Hall.
      apply elem_of_seq in Hi. lia. }
  reflexivity.
Qed.

Lemma SetIiwaVelocity_returns st (v : VectorXd) (c : StationContext) :
  "plant" ∈ subsystem_names st ->
  (forall i, i < kNumDofIiwa -> is_Some (iiwa_joint i)) ->
  length v = kNumDofIiwa ->
  SetIiwaVelocity st v c
  = Returns tt
      (with_plant_context
         (set_all set_angular_rate iiwa_joint (coeff v) (seq 0 kNumDofIiwa)) c).
Proof.
  intros Hplant Hall Hlen.
  unfold SetIiwaVelocity, DRAKE_DEMAND, GetSubsystemByName.
  rewrite Hlen, Nat.eqb_refl, !bool_decide_eq_true_2 by done.
  change (bind (ret tt) ?k c) with (k tt c). cbv beta.
  change (bind (ret tt) ?k c) with (k tt c). cbv beta.
  apply write_joints_returns. intros i Hi. apply Hall.
  apply elem_of_seq in Hi. lia.
Qed.

Lemma GetIiwaPosition_returns st (c : StationContext) :
  "plant" ∈ subsystem_names st ->
  (forall i, i < kNumDofIiwa -> is_Some (iiwa_joint i)) ->
  GetIiwaPosition st c
  = Returns (map (fun i => from_option (fun j => get_angle j (plant_context c))
                                       Double.zero (iiwa_joint i))
                 (seq 0 kNumDofIiwa)) c.
Proof.
  intros Hplant Hall. unfold GetIiwaPosition, GetSubsystemByName.
  rewrite bool_decide_eq_true_2 by done.
  change (bind (ret tt) ?k c) with (k tt c). cbv beta.
  apply read_joints_returns. intros i Hi. apply Hall.
  apply elem_of_seq in Hi. lia.
Qed.

Lemma GetIiwaVelocity_returns st (c : StationContext) :
  "plant" ∈ subsystem_names st ->
  (forall i, i < kNumDofIiwa -> is_Some (iiwa_joint i)) ->
  GetIiwaVelocity st c
  = Returns (map (fun i => from_option
                             (fun j => get_angular_rate j (plant_context c))
                             Double.zero (iiwa_joint i))
                 (seq 0 kNumDofIiwa)) c.
Proof.
  intros Hplant Hall. unfold GetIiwaVelocity, GetSubsystemByName.
  rewrite bool_decide_eq_true_2 by done.
  change (bind (ret tt) ?k c) with (k tt c). cbv beta.
  apply read_joints_returns. intros i Hi. apply Hall.
  apply elem_of_seq in Hi. lia.
Qed.

(** X12 (SetIiwaPosition, GetIiwaPosition).  On a built station whose
    plant has the seven joints of the arm, [SetIiwaPosition] with seven
    values returns, and [GetIiwaPosition] then returns these values, each
    as it was given (a NaN or an infinity too), and changes nothing.  The
    call hands the values to the interpolator and leaves the gripper
    controller, the translations and the angular rates as they were. *)
Theorem IiwaPosition_roundtrip st (q : VectorXd) (c : ArmStationContext) :
  "plant" ∈ subsystem_names st ->
  "desired_state_from_position" ∈ subsystem_names st ->
  (forall i, i < kNumDofIiwa -> is_Some (iiwa_joint i)) ->
  length q = kNumDofIiwa ->
  exists c' : ArmStationContext,
    SetIiwaPosition st q c = Returns tt c'
    /\ GetIiwaPosition st (station_context c') = Returns q (station_context c')
    /\ interpolator_context c'
       = set_initial_positions (interpolator_context c) q
    /\ wsg_controller_context (station_context c')
       = wsg_controller_context (station_context c)
    /\ (forall p, get_translation p (plant_context (station_context c'))
                  = get_translation p (plant_context (station_context c)))
    /\ (forall j, get_angular_rate j (plant_context (station_context c'))
                  = get_angular_rate j (plant_context (station_context c))).
Proof.
  intros Hplant Hinterp Hall Hlen.
  eexists. split; [now apply SetIiwaPosition_returns|].
  cbn [station_context interpolator_context].
  split; [|repeat split].
  - rewrite GetIiwaPosition_returns by done. f_equal.
    cbn [with_plant_context plant_context]. rewrite <- Hlen.
    apply read_after_write.
    + apply get_set_angle.
    + apply get_set_angle_other.
    + now rewrite Hlen.
  - intros p. cbn [with_plant_context plant_context].
    apply (set_all_frame set_angle iiwa_joint (coeff q) (get_translation p)).
    intros j pc x. apply translation_set_angle.
  - intros j. cbn [with_plant_context plant_context].
    apply (set_all_frame set_angle iiwa_joint (coeff q) (get_angular_rate j)).
    intros j' pc x. apply angular_rate_set_angle.
Qed.

(** X13 (SetIiwaPosition).  The setter is not atomic: when the plant has
    joints 1 to k of the arm but not joint k+1, the call leaves with the
    error of the failed lookup after it has written the first k angles;
    the interpolator has not been told. *)
Theorem SetIiwaPosition_missing_joint st (q : VectorXd)
    (c : ArmStationContext) (k : nat) :
  "plant" ∈ subsystem_names st ->
  length q = kNumDofIiwa ->
  k < kNumDofIiwa ->
  (forall i, i < k -> is_Some (iiwa_joint i)) ->
  iiwa_joint k = None ->
  exists c' : ArmStationContext,
    SetIiwaPosition st q c = Throws (NoSuchObject (iiwa_joint_name k)) c'
    /\ interpolator_context c' = interpolator_context c
    /\ (forall i j, i < k -> iiwa_joint i = Some j ->
          get_angle j (plant_context (station_context c')) = coeff q i).
Proof.
  intros Hplant Hlen Hk Hall Hnone.
  eexists. split; [|split].
  - unfold SetIiwaPosition, DRAKE_DEMAND, GetSubsystemByName.
    rewrite Hlen, Nat.eqb_refl, !bool_decide_eq_true_2 by done.
    change (bind (ret tt) ?k c) with (k tt c). cbv beta.
    change (bind (ret tt) ?k c) with (k tt c). cbv beta.
    apply bind_throws.
    replace kNumDofIiwa with (k + S (kNumDofIiwa - S k)) by lia.
    rewrite seq_app. cbn [seq].
    apply (for_each_throws _
             (fun c i =>
                {| station_context :=
                     with_plant_context
                       (fun pc => set_at set_angle iiwa_joint (coeff q) pc i)
                       (station_context c);
                   interpolator_context := interpolator_context c |})).
    + intros i s Hi. apply write_angle_returns, Hall.
      apply elem_of_seq in Hi. lia.
    + rewrite write_angles_foldl.
      unfold bind, FindRevoluteJoint. unfold iiwa_joint in Hnone.
      rewrite Nat.add_0_l, Hnone. reflexivity.
  - reflexivity.
  - intros i j Hi Hj. cbn [station_context with_plant_context plant_context].
    apply (get_set_all get_angle set_angle get_set_angle get_set_angle_other);
      [|apply elem_of_seq; lia|done].
    intros a b j' _ _. apply iiwa_joint_inj.
Qed.

(** X14 (SetIiwaPosition, SetIiwaVelocity).  A vector that does not have
    seven entries makes both setters abort at their size check, before any
    subsystem or joint is looked up, with the context as it was. *)
Theorem Iiwa_setters_demand_size st (x : VectorXd) (c : ArmStationContext) :
  length x <> kNumDofIiwa ->
  SetIiwaPosition st x c
  = Throws (External "abort: q.size() == kNumDofIiwa") c
  /\ SetIiwaVelocity st x (station_context c)
     = Throws (External "abort: v.size() == kNumDofIiwa") (station_context c).
Proof.
  intros Hlen. apply Nat.eqb_neq in Hlen.
  unfold SetIiwaPosition, SetIiwaVelocity, DRAKE_DEMAND.
  rewrite Hlen. split; reflexivity.
Qed.

(** X15 (SetIiwaVelocity, GetIiwaVelocity, GetIiwaPosition).  On a built
    station whose plant has the seven joints of the arm, [SetIiwaVelocity]
    with seven values returns, [GetIiwaVelocity] then returns these values,
    and [GetIiwaPosition] returns what it returned before the call. *)
Theorem IiwaVelocity_roundtrip st (v : VectorXd) (c : StationContext) :
  "plant" ∈ subsystem_names st ->
  (forall i, i < kNumDofIiwa -> is_Some (iiwa_joint i)) ->
  length v = kNumDofIiwa ->
  exists (c' : StationContext) (q : VectorXd),
    SetIiwaVelocity st v c = Returns tt c'
    /\ GetIiwaVelocity st c' = Returns v c'
    /\ GetIiwaPosition st c = Returns q c
    /\ GetIiwaPosition st c' = Returns q c'
    /\ wsg_controller_context c' = wsg_controller_context c.
Proof.
  intros Hplant Hall Hlen.
  eexists. eexists. split; [now apply SetIiwaVelocity_returns|].
  split; [|split; [now apply GetIiwaPosition_returns|split; [|done]]].
  - rewrite GetIiwaVelocity_returns by done. f_equal.
    cbn [with_plant_context plant_context]. rewrite <- Hlen.
    apply read_after_write.
    + apply get_set_angular_rate.
    + apply get_set_angular_rate_other.
    + now rewrite Hlen.
  - rewrite GetIiwaPosition_returns by done. f_equal.
    cbn [with_plant_context plant_context].
    apply read_joints_ext. intros j.
    apply (set_all_frame set_angular_rate iiwa_joint (coeff v) (get_angle j)).
    intros j' pc x. apply angle_set_angular_rate.
Qed.

(** What [SetWsgVelocity] leaves on a plant that has the two finger
    joints. *)
Lemma SetWsgVelocity_returns st (v : double) (c : StationContext)
    (right left : PrismaticJoint) :
  "plant" ∈ subsystem_names st ->
  GetJointByName "right_finger_sliding_joint" (model_instance (wsg_model_ st))
  = Some right ->
  GetJointByName "left_finger_sliding_joint" (model_instance (wsg_model_ st))
  = Some left ->
  SetWsgVelocity st v c
  = Returns tt
      (with_plant_context
         (fun pc =>
            set_translation_rate left
              (set_translation_rate right pc (Double.div v (Double.of_Z 2)))
              (Double.div (Double.neg v) (Double.of_Z 2))) c).
Proof.
  intros Hplant Hr Hl.
  unfold SetWsgVelocity, bind, GetSubsystemByName, FindJoint, modify, ret.
  rewrite !bool_decide_eq_true_2 by done. now rewrite Hr, Hl.
Qed.

(** X16 (SetWsgVelocity, GetWsgVelocity).  On a built station whose gripper
    has its two finger joints, [SetWsgVelocity(v)] followed by
    [GetWsgVelocity] returns [v/2 - (-v)/2], which is [v] exactly when [v]
    is not an odd multiple of [2^-1074]; the call needs no gripper
    controller and leaves its context and all translations as they
    were. *)
Theorem WsgVelocity_roundtrip st (v : double) (c : StationContext) :
  "plant" ∈ subsystem_names st ->
  is_Some (GetJointByName "right_finger_sliding_joint"
             (model_instance (wsg_model_ st))) ->
  is_Some (GetJointByName "left_finger_sliding_joint"
             (model_instance (wsg_model_ st))) ->
  Double.valid v = true ->
  exists (c' : StationContext) (r : double),
    SetWsgVelocity st v c = Returns tt c'
    /\ GetWsgVelocity st c' = Returns r c'
    /\ r = Double.sub (Double.div v (Double.of_Z 2))
                      (Double.div (Double.neg v) (Double.of_Z 2))
    /\ (r = v <-> Double.halves_exactly v = true)
    /\ wsg_controller_context c' = wsg_controller_context c
    /\ (forall p, get_translation p (plant_context c')
                  = get_translation p (plant_context c)).
Proof.
  intros Hplant [right Hr] [left Hl] Hvalid.
  assert (Hne : left <> right).
  { intros ->.
    pose proof (GetJointByName_inj _ _ _ _ Hr Hl) as Hnames. discriminate. }
  eexists. eexists.
  split; [exact (SetWsgVelocity_returns st v c right left Hplant Hr Hl)|].
  split; [|split; [reflexivity|split; [|split; [done|]]]].
  - unfold GetWsgVelocity, bind, GetSubsystemByName, FindJoint, get, ret.
    rewrite !bool_decide_eq_true_2 by done. rewrite Hr, Hl.
    cbn [with_plant_context plant_context].
    rewrite get_set_translation_rate.
    now rewrite get_set_translation_rate_other, get_set_translation_rate by done.
  - now apply half_minus_opposite_half_iff.
  - intros p. cbn [with_plant_context plant_context].
    now rewrite !translation_set_translation_rate.
Qed.

(** X17 (SetWsgPosition, GetIiwaPosition, GetWsgVelocity).  Setting the
    opening of the gripper does not move the arm or change the rates of the
    fingers: after [SetWsgPosition], [GetIiwaPosition] and [GetWsgVelocity]
    return what they returned before it. *)
Theorem SetWsgPosition_keeps_arm st (q : double) (c : StationContext) :
  "plant" ∈ subsystem_names st ->
  "wsg_controller" ∈ subsystem_names st ->
  is_Some (GetJointByName "right_finger_sliding_joint"
             (model_instance (wsg_model_ st))) ->
  is_Some (GetJointByName "left_finger_sliding_joint"
             (model_instance (wsg_model_ st))) ->
  (forall i, i < kNumDofIiwa -> is_Some (iiwa_joint i)) ->
  exists (c' : StationContext) (angles : VectorXd) (rate : double),
    SetWsgPosition st q c = Returns tt c'
    /\ GetIiwaPosition st c = Returns angles c
    /\ GetIiwaPosition st c' = Returns angles c'
    /\ GetWsgVelocity st c = Returns rate c
    /\ GetWsgVelocity st c' = Returns rate c'.
Proof.
  intros Hplant Hctl [right Hr] [left Hl] Hall.
  eexists. eexists. eexists. split.
  { unfold SetWsgPosition, bind, GetSubsystemByName, FindJoint, modify, ret.
    rewrite !bool_decide_eq_true_2 by done. rewrite Hr, Hl. reflexivity. }
  split; [now apply GetIiwaPosition_returns|]. split.
  { rewrite GetIiwaPosition_returns by done. f_equal.
    cbn [plant_context]. apply read_joints_ext. intros j.
    now rewrite !angle_set_translation. }
  split.
  { unfold GetWsgVelocity, bind, GetSubsystemByName, FindJoint, get, ret.
    rewrite !bool_decide_eq_true_2 by done. rewrite Hr, Hl. reflexivity. }
  unfold GetWsgVelocity, bind, GetSubsystemByName, FindJoint, get, ret.
  rewrite !bool_decide_eq_true_2 by done. rewrite Hr, Hl.
  cbn [plant_context]. now rewrite !translation_rate_set_translation.
Qed.

End ArmMore.

(** ** The further properties on the examples *)

Lemma DoCalcTimeDerivatives_repeatable_witness :
  exists w1 : World Z nat,
    DoCalcTimeDerivatives example_system example_context 2%positive example_world
    = Returns tt w1
    /\ vectors w1 !! 2%positive
       = Some [logistic_rhs example_system 4%Z (get_time example_context)]
    /\ vectors w1 !! get_continuous_state example_context = Some [4%Z]
    /\ DoCalcTimeDerivatives example_system example_context 2%positive w1
       = Returns tt w1.
Proof.
  apply (DoCalcTimeDerivatives_repeatable example_system example_context
           2%positive example_world 4%Z 0%Z [] []).
  - reflexivity.
  - reflexivity.
  - discriminate.
Defined.

Lemma DoCalcTimeDerivatives_in_place_witness :
  exists w1 w2 : World Z nat,
    DoCalcTimeDerivatives example_system example_context 1%positive example_world
    = Returns tt w1
    /\ vectors w1 !! 1%positive = Some [(-45)%Z]
    /\ DoEvaluate (LogisticWitness_ctor 1%positive) example_context w1
       = Returns (-45)%Z w1
    /\ DoCalcTimeDerivatives example_system example_context 1%positive w1
       = Returns tt w2
    /\ vectors w2 !! 1%positive = Some [(-7245)%Z].
Proof.
  exact (DoCalcTimeDerivatives_in_place example_system
           (LogisticWitness_ctor 1%positive) example_context example_world
           4%Z [] eq_refl).
Defined.

Lemma publish_each_trace_witness :
  calls (state_of (publish_each
                     (set_publish_callback (Some counting_callback) example_system)
                     [example_context; example_context] example_world))
  = [example_context; example_context]
  /\ exists w2 : World Z nat,
       publish_each (set_publish_callback (Some failing_callback) example_system)
         [example_context; example_context; example_context] example_world
       = Throws (External "callback") w2
       /\ calls w2 = [example_context; example_context].
Proof.
  split.
  - apply (proj1 (proj2 (proj2 (publish_each_trace
                    (set_publish_callback (Some counting_callback) example_system)
                    counting_callback [example_context; example_context]
                    example_world eq_refl)))).
    reflexivity.
  - eexists.
    apply (proj1 (proj2 (proj2 (proj2 (publish_each_trace
                           (set_publish_callback (Some failing_callback)
                              example_system)
                           failing_callback
                           [example_context; example_context; example_context]
                           example_world eq_refl))))
             [example_context] example_context [example_context]
             {| vectors := vectors example_world; env := 1;
                calls := [example_context] |}
             (External "callback")).
    + reflexivity.
    + reflexivity.
    + reflexivity.
Defined.




(** With a library that refuses the export of the pose bundle, [Finalize]
    on the example station ends with that refusal, after the cameras have
    been added, and the plant is destroyed with the builder. *)
Example Finalize_refused :
  raised (Finalize (library := StrictLibrary) (fun _ => true) registered_station)
  = Some (External "DiagramBuilder")
  /\ plant_destroyed_
       (state_of (Finalize (library := StrictLibrary) (fun _ => true)
                    registered_station)) = true
  /\ diagram_
       (state_of (Finalize (library := StrictLibrary) (fun _ => true)
                    registered_station)) = None.
Proof. repeat split; vm_compute; reflexivity. Qed.

(** With the gripper registered on a frame that the arm's file does not
    have, [Finalize] ends in [MakeIiwaControllerModel] with the failed
    lookup; the station still owns its plant, which is not finalized. *)
Example Finalize_missing_frame :
  let st := state_of (RegisterWsgControllerModel "schunk_wsg_50.sdf" (Some 3)
                        example_world_frame example_gripper_frame 1%Z
                        registered_station) in
  raised (Finalize (fun _ => true) st) = Some (NoSuchObject "WorldBody")
  /\ owned_plant_ (state_of (Finalize (fun _ => true) st)) = true
  /\ is_finalized (plant_ (state_of (Finalize (fun _ => true) st))) = false.
Proof. repeat split; vm_compute; reflexivity. Qed.

Lemma gains_frozen_after_Finalize_witness :
  SetWsgGains (Double.of_Z 1) (Double.of_Z 1) built_station
  = Throws (ThrowUnless "!plant_->is_finalized()") built_station
  /\ SetIiwaGains built_station (replicate 7 (Double.of_Z 1))
       (iiwa_kp_ built_station)
     = Throws (ThrowUnless "!plant_->is_finalized()") (iiwa_kp_ built_station).
Proof.
  apply (gains_frozen_after_Finalize (fun _ => true) registered_station
           built_station).
  vm_compute. reflexivity.
Defined.

(** The built station contains what the accessors look up, and the example
    arm has its joints. *)
Lemma built_station_subsystems :
  "plant" ∈ subsystem_names built_station
  /\ "desired_state_from_position" ∈ subsystem_names built_station
  /\ "wsg_controller" ∈ subsystem_names built_station.
Proof.
  repeat split; apply list_elem_of_In; vm_compute;
    repeat (first [left; reflexivity|right]).
Qed.

Lemma RobotArm_joints (dofs i : nat) :
  i < dofs -> is_Some (iiwa_joint (arm_api := RobotArm dofs) i).
Proof.
  intros Hi. unfold iiwa_joint. cbn [GetRevoluteJointByName RobotArm].
  unfold arm_joint. rewrite bool_decide_eq_true_2; [eauto|].
  apply list_elem_of_fmap. exists i. split; [done|]. apply elem_of_seq. lia.
Qed.

Lemma IiwaPosition_roundtrip_witness :
  exists c' : ArmStationContext,
    SetIiwaPosition (arm_api := RobotArm 7) built_station example_q
      robot_arm_context = Returns tt c'
    /\ GetIiwaPosition (arm_api := RobotArm 7) built_station (station_context c')
       = Returns example_q (station_context c')
    /\ interpolator_context c' = example_q.
Proof.
  destruct (IiwaPosition_roundtrip (arm_api := RobotArm 7) built_station
              example_q robot_arm_context)
    as (c' & Hset & Hget & Hinterpolator & _).
  - apply built_station_subsystems.
  - apply built_station_subsystems.
  - apply RobotArm_joints.
  - reflexivity.
  - exists c'. split; [exact Hset|]. split; [exact Hget|exact Hinterpolator].
Defined.

Lemma SetIiwaPosition_missing_joint_witness :
  exists c' : ArmStationContext,
    SetIiwaPosition (arm_api := RobotArm 3) built_station example_q
      robot_arm_context = Throws (NoSuchObject "iiwa_joint_4") c'
    /\ interpolator_context c' = []
    /\ get_angle (ArmApi := RobotArm 3) "iiwa_joint_2"
         (plant_context (station_context c')) = Double.nan.
Proof.
  destruct (SetIiwaPosition_missing_joint (arm_api := RobotArm 3) built_station
              example_q robot_arm_context 3)
    as (c' & Hthrows & Hinterpolator & Hangles).
  - apply built_station_subsystems.
  - reflexivity.
  - unfold kNumDofIiwa. lia.
  - apply RobotArm_joints.
  - vm_compute. reflexivity.
  - exists c'. split; [exact Hthrows|]. split; [exact Hinterpolator|].
    apply (Hangles 1 "iiwa_joint_2"); [lia|]. vm_compute. reflexivity.
Defined.

Lemma Iiwa_setters_demand_size_witness :
  SetIiwaPosition (arm_api := RobotArm 7) built_station [Double.zero]
    robot_arm_context
  = Throws (External "abort: q.size() == kNumDofIiwa") robot_arm_context
  /\ SetIiwaVelocity (arm_api := RobotArm 7) built_station [Double.zero]
       robot_context
     = Throws (External "abort: v.size() == kNumDofIiwa") robot_context.
Proof.
  apply (Iiwa_setters_demand_size (arm_api := RobotArm 7) built_station
           [Double.zero] robot_arm_context).
  discriminate.
Defined.

Lemma IiwaVelocity_roundtrip_witness :
  exists (c' : StationContext) (q : VectorXd),
    SetIiwaVelocity (arm_api := RobotArm 7) built_station example_q robot_context
    = Returns tt c'
    /\ GetIiwaVelocity (arm_api := RobotArm 7) built_station c'
       = Returns example_q c'
    /\ GetIiwaPosition (arm_api := RobotArm 7) built_station robot_context
       = Returns q robot_context
    /\ GetIiwaPosition (arm_api := RobotArm 7) built_station c' = Returns q c'
    /\ wsg_controller_context c' = wsg_controller_context robot_context.
Proof.
  apply (IiwaVelocity_roundtrip (arm_api := RobotArm 7) built_station example_q
           robot_context).
  - apply built_station_subsystems.
  - apply RobotArm_joints.
  - reflexivity.
Defined.

Lemma WsgVelocity_roundtrip_witness :
  exists (c' : StationContext) (r : double),
    SetWsgVelocity (arm_api := RobotArm 7) built_station (Double.of_Z 3)
      robot_context = Returns tt c'
    /\ GetWsgVelocity (arm_api := RobotArm 7) built_station c' = Returns r c'
    /\ r = Double.of_Z 3.
Proof.
  destruct (WsgVelocity_roundtrip (arm_api := RobotArm 7) built_station
              (Double.of_Z 3) robot_context)
    as (c' & r & Hset & Hget & _ & Hexact & _).
  - apply built_station_subsystems.
  - eexists. vm_compute. reflexivity.
  - eexists. vm_compute. reflexivity.
  - reflexivity.
  - exists c', r. split; [exact Hset|]. split; [exact Hget|].
    apply Hexact. reflexivity.
Defined.

Lemma SetWsgPosition_keeps_arm_witness :
  exists (c' : StationContext) (angles : VectorXd) (rate : double),
    SetWsgPosition built_station (Double.of_Z 100) robot_context = Returns tt c'
    /\ GetIiwaPosition (arm_api := RobotArm 7) built_station robot_context
       = Returns angles robot_context
    /\ GetIiwaPosition (arm_api := RobotArm 7) built_station c'
       = Returns angles c'
    /\ GetWsgVelocity (arm_api := RobotArm 7) built_station robot_context
       = Returns rate robot_context
    /\ GetWsgVelocity (arm_api := RobotArm 7) built_station c' = Returns rate c'.
Proof.
  apply (SetWsgPosition_keeps_arm (arm_api := RobotArm 7) built_station
           (Double.of_Z 100) robot_context).
  - apply built_station_subsystems.
  - apply built_station_subsystems.
  - eexists. vm_compute. reflexivity.
  - eexists. vm_compute. reflexivity.
  - apply RobotArm_joints.
Defined.

(** Read back on the example: seven values, a NaN, an infinity and
    [2^-1074] among them, come back as given; the smallest subnormal rate
    of the gripper reads back as zero. *)
Example IiwaPosition_example :
  value_of (bind (SetIiwaPosition (arm_api := RobotArm 7) built_station example_q)
                 (fun _ => on_station
                             (GetIiwaPosition (arm_api := RobotArm 7) built_station))
                 robot_arm_context)
  = Some example_q.
Proof. vm_compute; reflexivity. Qed.

Example WsgVelocity_denorm_min :
  value_of (bind (SetWsgVelocity (arm_api := RobotArm 7) built_station
                    Double.denorm_min)
                 (fun _ => GetWsgVelocity (arm_api := RobotArm 7) built_station)
                 robot_context)
  = Some Double.zero.
Proof. vm_compute; reflexivity. Qed.
